(** * Driver management system: the JWT gate of [middleware/jwt.js]

    A shallow embedding of [generateToken] and of the Express middleware
    [authenticate], together with the part of the [jsonwebtoken] dependency
    they call ([jwt.sign], [jwt.verify]).

    JavaScript objects used as dictionaries ([req.headers], [process.env],
    the token payload, the [user] row) are finite maps with string keys.
    The middleware mutates [req], drives [res] and calls [next]: it is
    written in a small state monad over the request and a log of the calls
    it makes. *)

From Stdlib Require Import ZArith Ascii String.
From stdpp Require Import gmap strings list fin_maps countable.

Open Scope Z_scope.

(** ** Strings: [String.prototype.split] with a one-character separator *)

Module Str.

(** [s.split(sep)]: the pieces of [s] between the occurrences of [sep]. The
    array is never empty; [''.split(' ')] is [['']] and two separators in a
    row enclose an empty piece. *)
Fixpoint split (sep : ascii) (s : string) : list string :=
  match s with
  | EmptyString => [EmptyString]
  | String c s' =>
      if Ascii.eqb c sep then EmptyString :: split sep s'
      else match split sep s' with
           | [] => [String c EmptyString]
           | piece :: pieces => String c piece :: pieces
           end
  end.

(** [sep] does not occur in [s]. *)
Fixpoint lacks (sep : ascii) (s : string) : bool :=
  match s with
  | EmptyString => true
  | String c s' => negb (Ascii.eqb c sep) && lacks sep s'
  end.

(** Every character of [s] satisfies [p]. *)
Fixpoint all (p : ascii → bool) (s : string) : bool :=
  match s with
  | EmptyString => true
  | String c s' => p c && all p s'
  end.

(** The base64url alphabet: letters, digits, [-] and [_]. *)
Definition base64url_char (c : ascii) : bool :=
  let n := nat_of_ascii c in
  ((65 <=? n)%nat && (n <=? 90)%nat) || ((97 <=? n)%nat && (n <=? 122)%nat)
  || ((48 <=? n)%nat && (n <=? 57)%nat) || (n =? 45)%nat || (n =? 95)%nat.

Definition base64url (s : string) : bool := all base64url_char s.

(** JavaScript truthiness of a string: only [''] is falsy. *)
Definition truthy (s : string) : bool :=
  match s with EmptyString => false | String _ _ => true end.

End Str.

(** ** JSON values and objects *)

(** The values the token payload and the response bodies carry. *)
Inductive jvalue : Type :=
  | JNum (n : Z)
  | JStr (s : string).

#[global] Instance jvalue_eq_dec : EqDecision jvalue.
Proof. solve_decision. Defined.

#[global] Instance jvalue_countable : Countable jvalue.
Proof.
  refine (inj_countable'
    (λ v, match v with JNum n => inl n | JStr s => inr s end)
    (λ x, match x with inl n => JNum n | inr s => JStr s end) _).
  by intros [].
Defined.

(** A JSON object: a finite map from property names to values. A property
    that is [undefined] is absent from the map, which is also what
    [JSON.stringify] makes of it. *)
Abbreviation jobject := (gmap string jvalue).

(** ** Errors thrown by the token library *)

Record error : Type := Error { name : string; message : string }.

#[global] Instance error_eq_dec : EqDecision error.
Proof. solve_decision. Defined.

Definition JsonWebTokenError (msg : string) : error :=
  {| name := "JsonWebTokenError"; message := msg |}.
Definition TokenExpiredError (msg : string) : error :=
  {| name := "TokenExpiredError"; message := msg |}.

(** A call either returns a value or throws. *)
Definition result (A : Type) : Type := A + error.
Definition returns {A} (x : A) : result A := inl x.
Definition throws {A} (e : error) : result A := inr e.

(** ** The clock *)

(** Modelled from the spec: the clock of the missing token package.
    [Date.now()] is in milliseconds; tokens carry whole seconds since the
    epoch. *)
Definition clockTimestamp (now : Z) : Z := now / 1000.

(** The time span ['30m'] in seconds. *)
Definition thirty_minutes : Z := 30 * 60.

(** ** The token library *)

(** Modelled from the spec: the [jsonwebtoken] package, whose [jwt.sign]
    and [jwt.verify] the middleware calls, is a dependency and not among
    the sources. By the spec a token is the compact serialisation
    [header.payload.signature] of base64url segments and encodes the
    identity claim, the issued-at and the expires-at. The segment codec and
    the keyed hash are parameters of the model. *)
Class Jws : Type := {
  (** [base64url(JSON.stringify(o))] *)
  base64url_json : jobject → string;
  (** [JSON.parse] of the base64url decoding; [None] when either fails *)
  json_base64url : string → option jobject;
  (** the base64url signature of a signing input under a key *)
  hmac : string → string → string
}.

(** Modelled from the spec: what the model asks of the codec and the keyed
    hash of the missing package. Decoding undoes encoding, and segments and
    signatures are written in the base64url alphabet. *)
Class JwsLaws (J : Jws) : Prop := {
  json_base64url_json : ∀ o, json_base64url (base64url_json o) = Some o;
  base64url_json_alphabet : ∀ o, Str.base64url (base64url_json o) = true;
  hmac_alphabet : ∀ key input, Str.base64url (hmac key input) = true
}.

Section Library.
Context `{J : Jws}.

(** Modelled from the spec: the header segment of the missing package's
    tokens, [{ alg: 'HS256', typ: 'JWT' }]. *)
Definition jose_header : jobject :=
  {[ "alg" := JStr "HS256"; "typ" := JStr "JWT" ]}.

(** Modelled from the spec: [header.payload], the text the signature of a
    token of the missing package covers. *)
Definition signing_input (header payload : string) : string :=
  header +:+ "." +:+ payload.

(** Modelled from the spec: [jwt.sign(payload, secretOrPrivateKey,
    { expiresIn })] of the missing package, at clock [now] and with
    [expiresIn] in seconds. The token is signed and embeds the payload,
    the issuance time and the expiry, issuance time plus [expiresIn]; a
    missing or empty secret is a signing error. *)
Definition jwt_sign (payload : jobject) (secretOrPrivateKey : option string)
    (expiresIn : Z) (now : Z) : result string :=
  match secretOrPrivateKey with
  | Some key =>
      if Str.truthy key then
        let timestamp := clockTimestamp now in
        let claims :=
          <["exp" := JNum (timestamp + expiresIn)]>
            (<["iat" := JNum timestamp]> payload) in
        let input :=
          signing_input (base64url_json jose_header) (base64url_json claims) in
        returns (input +:+ "." +:+ hmac key input)
      else throws (Error "Error" "secretOrPrivateKey must have a value")
  | None => throws (Error "Error" "secretOrPrivateKey must have a value")
  end.

(** Modelled from the spec: the expiry check of the missing [jwt.verify].
    A token is valid while the current time is before its expires-at, and
    expired from then on; a token without [exp] does not expire, and an
    [exp] that is not a number makes the token invalid. *)
Definition check_exp (payload : jobject) (now : Z) : result jobject :=
  match payload !! "exp" with
  | None => returns payload
  | Some (JNum exp) =>
      if clockTimestamp now >=? exp
      then throws (TokenExpiredError "jwt expired")
      else returns payload
  | Some (JStr _) => throws (JsonWebTokenError "invalid exp value")
  end.

(** Modelled from the spec: [jwt.verify(jwtString, secretOrPublicKey)] of
    the missing package, at clock [now]. The token has three segments, its
    header and payload decode and its signature is the keyed hash of the
    signing input under the secret, or else the token is invalid (a
    [JsonWebTokenError]); a token with a good signature then passes the
    expiry check or is expired (a [TokenExpiredError]). On success the
    decoded payload is returned. Registered claims that [generateToken]
    never sets, such as not-before or audience, are not modelled. *)
Definition jwt_verify (jwtString : string) (secretOrPublicKey : option string)
    (now : Z) : result jobject :=
  match Str.split "." jwtString with
  | [header; payload; signature] =>
      match json_base64url header, json_base64url payload with
      | Some _, Some claims =>
          match secretOrPublicKey with
          | Some key =>
              if Str.truthy key then
                if String.eqb signature (hmac key (signing_input header payload))
                then check_exp claims now
                else throws (JsonWebTokenError "invalid signature")
              else throws (JsonWebTokenError "secret or public key must be provided")
          | None => throws (JsonWebTokenError "secret or public key must be provided")
          end
      | _, _ => throws (JsonWebTokenError "invalid token")
      end
  | _ => throws (JsonWebTokenError "jwt malformed")
  end.

End Library.

(** ** Requests, responses and the handler monad *)

(** The part of an Express request the middleware touches:
    [req.headers] and [req.user]. *)
Record request : Type := Request {
  headers : gmap string string;
  user : option jobject
}.

(** The calls a middleware makes on its collaborators, in order:
    [jwt.verify(token, ...)], [res.status(code)], [res.json(body)] and
    [next()]. *)
Inductive call : Type :=
  | Verify (token : string)
  | Status (code : Z)
  | Json (body : jobject)
  | Next.

#[global] Instance call_eq_dec : EqDecision call.
Proof. solve_decision. Defined.

(** One request being handled: the request object and the calls made so
    far. *)
Record exchange : Type := Exchange {
  req : request;
  calls : list call
}.

Definition handler (A : Type) : Type := exchange → A * exchange.

#[global] Instance handler_ret : MRet handler := λ A x e, (x, e).
#[global] Instance handler_bind : MBind handler :=
  λ A B k m e, let (x, e') := m e in k x e'.

Definition get_req : handler request := λ e, (req e, e).
Definition log (c : call) : handler unit :=
  λ e, (tt, {| req := req e; calls := calls e ++ [c] |}).

(** [req.user = claims] *)
Definition set_user (claims : jobject) : handler unit :=
  λ e, (tt, {| req := {| headers := headers (req e); user := Some claims |};
               calls := calls e |}).

Definition res_status (code : Z) : handler unit := log (Status code).
Definition res_json (body : jobject) : handler unit := log (Json body).
Definition next : handler unit := log Next.

(** [try { jwt.verify(token, secret) }]: the call is logged and its outcome,
    value or exception, is handed to the continuation. *)
Definition try_verify `{Jws} (token : string) (secret : option string)
    (now : Z) : handler (result jobject) :=
  log (Verify token) ;; mret (jwt_verify token secret now).

(** ** [middleware/jwt.js] *)

Section Middleware.
Context `{J : Jws}.

(** [process.env] *)
Variable env : gmap string string.

(** <<
    const generateToken = (user) => {
        const payload = { id: user.id };
        const token = jwt.sign(payload, process.env.JWT_SECRET, { expiresIn: '30m' });
        return token;
    };
    >> *)
Definition generateToken (now : Z) (user : jobject) : result string :=
  let payload : jobject :=
    match user !! "id" with
    | Some id => {[ "id" := id ]}
    | None => ∅
    end in
  let token := jwt_sign payload (env !! "JWT_SECRET") thirty_minutes now in
  token.

(** [{ message: text }] *)
Definition message_body (text : string) : jobject :=
  {[ "message" := JStr text ]}.

(** [req.headers['authorization']?.split(' ')[1]] *)
Definition bearer_token (r : request) : option string :=
  headers r !! "authorization" ≫= λ h, Str.split " " h !! 1%nat.

(** [!token] for a string or [undefined]. *)
Definition falsy (token : option string) : bool :=
  match token with
  | Some s => negb (Str.truthy s)
  | None => true
  end.

(** <<
    const authenticate = (req, res, next) => {
        const token = req.headers['authorization']?.split(' ')[1];
        if (!token) {
            return res.status(401).json({ message: 'Access denied. No token provided.' });
        }
        try {
            const verified = jwt.verify(token, process.env.JWT_SECRET);
            req.user = verified;
            next();
        } catch (error) {
            if (error.name === 'TokenExpiredError') {
                return res.status(401).json({ message: 'Token has expired. Please log in again.' });
            }
            res.status(400).json({ message: 'Invalid token.' });
        }
    };
    >> *)
Definition authenticate (now : Z) : handler unit :=
  r ← get_req;
  let token := bearer_token r in
  if falsy token then
    res_status 401 ;;
    res_json (message_body "Access denied. No token provided.")
  else
    outcome ← try_verify (default "" token) (env !! "JWT_SECRET") now;
    match outcome with
    | inl verified =>
        set_user verified ;;
        next
    | inr error =>
        if String.eqb (name error) "TokenExpiredError" then
          res_status 401 ;;
          res_json (message_body "Token has expired. Please log in again.")
        else
          res_status 400 ;;
          res_json (message_body "Invalid token.")
    end.

End Middleware.

(** ** An instance of the parameters

    A codec and a keyed hash that satisfy [JwsLaws]: an object (or a key
    with its input) is numbered by its [Countable] encoding and the number
    is written in binary with the letters [A] and [B], ended by [C]. The
    keyed hash is injective, as an ideal one would be. *)
Module Ideal.

Fixpoint write (p : positive) : string :=
  match p with
  | xH => "C"
  | xO p' => String "A" (write p')
  | xI p' => String "B" (write p')
  end.

Fixpoint read (s : string) : option positive :=
  match s with
  | EmptyString => None
  | String c s' =>
      if Ascii.eqb c "A" then xO <$> read s'
      else if Ascii.eqb c "B" then xI <$> read s'
      else if Ascii.eqb c "C" then
        match s' with EmptyString => Some xH | String _ _ => None end
      else None
  end.

#[global] Instance jws : Jws := {|
  base64url_json o := write (encode o);
  json_base64url s := read s ≫= decode;
  hmac key input := write (encode (key, input))
|}.

End Ideal.

(** ** Rejections

    The three ways the guard turns a request down, and the response each is
    surfaced as. *)
Inductive rejection : Type := NoToken | InvalidToken | TokenExpired.

Definition surfaced (k : rejection) : list call :=
  match k with
  | NoToken =>
      [Status 401; Json (message_body "Access denied. No token provided.")]
  | InvalidToken =>
      [Status 400; Json (message_body "Invalid token.")]
  | TokenExpired =>
      [Status 401; Json (message_body "Token has expired. Please log in again.")]
  end.

(** A call after which the middleware does nothing more for the request:
    the response is sent, or the request is handed on. *)
Definition terminal (c : call) : bool :=
  match c with
  | Json _ | Next => true
  | Verify _ | Status _ => false
  end.

(** [token] carries a signature that verifies under [key], over a payload
    that decodes to [claims]. *)
Definition well_signed `{Jws} (key token : string) (claims : jobject) : Prop :=
  ∃ header payload signature,
    Str.split "." token = [header; payload; signature]
    ∧ is_Some (json_base64url header)
    ∧ json_base64url payload = Some claims
    ∧ signature = hmac key (signing_input header payload).

(** The claims [generateToken] signs at clock [now] for [user]. *)
Definition issued_claims (now : Z) (user : jobject) : jobject :=
  <["exp" := JNum (clockTimestamp now + thirty_minutes)]>
    (<["iat" := JNum (clockTimestamp now)]>
       (match user !! "id" with Some id => {[ "id" := id ]} | None => ∅ end)).

(** An exchange that starts with the request [r]. *)
Definition incoming (r : request) : exchange := {| req := r; calls := [] |}.

(** A request carrying [value] as its authorization header. *)
Definition with_authorization (value : string) : request :=
  {| headers := {[ "authorization" := value ]}; user := None |}.

(** The rejection an exception of [jwt.verify] is turned into. *)
Definition caught (e : error) : rejection :=
  if String.eqb (name e) "TokenExpiredError" then TokenExpired else InvalidToken.

(** Examples, run on the instance: a token issued at 5 s for subject 42
    passes at 1000 s and is expired from 1805 s on; a header whose second
    piece is no token is turned down. *)
Definition example_env : gmap string string := {[ "JWT_SECRET" := "s3cret" ]}.
Definition example_user : jobject :=
  {[ "id" := JNum 42; "username" := JStr "ann" ]}.

Definition example_run (now : Z) (header : string) : list call :=
  calls (authenticate example_env now (incoming (with_authorization header))).2.

Definition example_token (issued : Z) : string :=
  match generateToken example_env issued example_user with
  | inl token => token
  | inr _ => ""
  end.

Definition example_bearer (issued : Z) : string :=
  "Bearer " +:+ example_token issued.

(** The object the login route passes to [generateToken]:
    [{ id: user.user_id, username: user.username }] for the row [user]. *)
Definition login_identity (row : jobject) : jobject :=
  let identity : jobject :=
    match row !! "user_id" with
    | Some id => {[ "id" := id ]}
    | None => ∅
    end in
  match row !! "username" with
  | Some username => <["username" := username]> identity
  | None => identity
  end.

Definition example_row : jobject :=
  {[ "user_id" := JNum 42; "username" := JStr "ann"; "password" := JStr "pw" ]}.

(** ** The routes ([routes/drivers.js])

    The router of the driver registry: the login route, the guard, and the
    create, update, list, read, delete and search routes behind it. *)
Module Routes.

#[local] Set Warnings "-register-all".

(** A parsed JSON value, as [req.body] and its members are. The names in an
    object are distinct. *)
Inductive json : Type :=
  | JsNull
  | JsBool (b : bool)
  | JsNumber (n : Z)
  | JsString (s : string)
  | JsArray (items : list json)
  | JsObject (fields : list (string * json)).

Fixpoint assoc {A} (k : string) (fields : list (string * A)) : option A :=
  match fields with
  | [] => None
  | (k', v) :: fields' => if String.eqb k k' then Some v else assoc k fields'
  end.

(** [v.k], or [v[k]], for a property name [k] that only an object can have,
    as all the names read here are; [None] is [undefined]. *)
Definition member (k : string) (v : json) : option json :=
  match v with
  | JsObject fields => assoc k fields
  | _ => None
  end.

Definition is_null (v : json) : bool :=
  match v with
  | JsNull => true
  | _ => false
  end.

(** The exception of [const { first, ... } = req.body] for a null body. *)
Definition cannot_destructure (first : string) : error :=
  Error "TypeError"
    ("Cannot destructure property '" +:+ first
     +:+ "' of 'req.body' as it is null.").

(** [v === undefined || v === null] *)
Definition nullish (v : option json) : bool :=
  match v with
  | None | Some JsNull => true
  | Some _ => false
  end.

(** *** [parseInt(s, 10)] *)

Definition is_digit (c : ascii) : bool :=
  let n := nat_of_ascii c in (48 <=? n)%nat && (n <=? 57)%nat.

Definition digit_value (c : ascii) : Z := Z.of_nat (nat_of_ascii c) - 48.

(** The one-byte white space and line terminators: tab, line feed, vertical
    tab, form feed, carriage return and space. *)
Definition is_white (c : ascii) : bool :=
  let n := nat_of_ascii c in
  ((9 <=? n)%nat && (n <=? 13)%nat) || (n =? 32)%nat.

(** The white space written in two or three bytes of UTF-8: U+00A0, and
    U+1680, U+2000 to U+200A, U+2028, U+2029, U+202F, U+205F, U+3000 and
    U+FEFF. *)
Definition is_white2 (c1 c2 : ascii) : bool :=
  (nat_of_ascii c1 =? 194)%nat && (nat_of_ascii c2 =? 160)%nat.

Definition is_white3 (c1 c2 c3 : ascii) : bool :=
  let n1 := nat_of_ascii c1 in
  let n2 := nat_of_ascii c2 in
  let n3 := nat_of_ascii c3 in
  ((n1 =? 225)%nat && (n2 =? 154)%nat && (n3 =? 128)%nat)
  || ((n1 =? 226)%nat && (n2 =? 128)%nat
      && (((128 <=? n3)%nat && (n3 <=? 138)%nat)
          || (n3 =? 168)%nat || (n3 =? 169)%nat || (n3 =? 175)%nat))
  || ((n1 =? 226)%nat && (n2 =? 129)%nat && (n3 =? 159)%nat)
  || ((n1 =? 227)%nat && (n2 =? 128)%nat && (n3 =? 128)%nat)
  || ((n1 =? 239)%nat && (n2 =? 187)%nat && (n3 =? 191)%nat).

(** Drop the leading white space. *)
Fixpoint skip_white (s : string) : string :=
  match s with
  | EmptyString => s
  | String c1 s1 =>
      if is_white c1 then skip_white s1
      else match s1 with
           | EmptyString => s
           | String c2 s2 =>
               if is_white2 c1 c2 then skip_white s2
               else match s2 with
                    | EmptyString => s
                    | String c3 s3 =>
                        if is_white3 c1 c2 c3 then skip_white s3 else s
                    end
           end
  end.

(** The value of the longest prefix of decimal digits, with [acc] the value
    read so far; [None] when no digit was read. *)
Fixpoint digits (acc : option Z) (s : string) : option Z :=
  match s with
  | EmptyString => acc
  | String c s' =>
      if is_digit c then digits (Some (10 * default 0 acc + digit_value c)) s'
      else acc
  end.

(** [parseInt(s, 10)]: white space is skipped, then an optional sign, then
    the digits up to the first character that is none; [None] is [NaN].
    The Number returned is the one nearest to the integer, which below
    [2^53] is the integer itself. *)
Definition parseInt (s : string) : option Z :=
  match skip_white s with
  | String "-" s' => Z.opp <$> digits None s'
  | String "+" s' => digits None s'
  | s' => digits None s'
  end.

(** *** What a handler does *)

(** A value handed to [pool.query]; [None] is [undefined]. *)
Abbreviation sqlvalue := (option json).

(** A row of a query result: its columns by name. *)
Abbreviation row := jobject.

(** The bodies the handlers send with [res.json]. *)
Inductive reply : Type :=
  (** [{ message: ... }] and [{ error: ... }] *)
  | Said (o : jobject)
  (** [{ errors: errors.array() }] *)
  | ValidationErrors (errors : list json)
  (** [rows[0]] *)
  | FirstRow (r : option row)
  (** [rows] *)
  | Rows (rs : list row)
  (** [{ user, token }] *)
  | Session (user : row) (token : string).

(** What is printed by [console.log(label, shown)]. *)
Inductive shown : Type :=
  | ShownText (s : string)
  | ShownValues (values : list sqlvalue).

(** The calls a route handler makes, in order: [pool.query(text, values)],
    [console.log(label, shown)] and [res.status(status).json(body)]; and
    [Reject], the exception an async handler ends with when it throws
    outside its [try]. *)
Inductive effect : Type :=
  | Query (text : string) (values : list sqlvalue)
  | Console (label : string) (what : shown)
  | Reply (status : Z) (body : reply)
  | Reject (e : error).

Definition route (A : Type) : Type := list effect → A * list effect.

#[global] Instance route_ret : MRet route := λ A x log, (x, log).
#[global] Instance route_bind : MBind route :=
  λ A B k m log, let (x, log') := m log in k x log'.

Definition emit (f : effect) : route unit := λ log, (tt, log ++ [f]).

(** [res.status(status).json(body)] *)
Definition send (status : Z) (body : reply) : route unit :=
  emit (Reply status body).

Definition console_log (label : string) (what : shown) : route unit :=
  emit (Console label what).

Definition reject (e : error) : route unit := emit (Reject e).

(** The effects of a handler, run from the start. *)
Definition run (h : route unit) : list effect := (h []).2.

(** [{ error: msg }] *)
Definition error_body (msg : string) : jobject := {[ "error" := JStr msg ]}.

(** A validation chain [body(field).check()...] of a route, as data. *)
Inductive check : Type :=
  | NotEmpty
  | IsString
  | IsArray
  | IsLength (min max : nat)
  | Optional
  | WithMessage (msg : string).

Abbreviation chain := (string * list check)%type.

(** The request as the routes see it: [req.method], [req.path], the part
    the guard works on ([req.headers], [req.user]), [req.query] and
    [req.body]. *)
Record http : Type := Http {
  method : string;
  path : string;
  auth : request;
  query : gmap string string;
  body : json
}.

(** The SQL statements. *)
Definition nl : string := String (ascii_of_nat 10) EmptyString.

Definition select_user : string :=
  "SELECT * FROM users WHERE username = $1 AND password = $2".

Definition insert_driver : string :=
  nl +:+
  "            INSERT INTO drivers (driver_name, fleet_id, license_id, location_city, location_pincode, vehicle_types)" +:+ nl +:+
  "            VALUES ($1, $2, $3, $4, $5, $6)" +:+ nl +:+
  "            RETURNING *".

Definition update_driver_text : string :=
  nl +:+
  "            UPDATE drivers " +:+ nl +:+
  "            SET driver_name = COALESCE($1, driver_name), " +:+ nl +:+
  "                fleet_id = COALESCE($2, fleet_id), " +:+ nl +:+
  "                license_id = COALESCE($3, license_id)," +:+ nl +:+
  "                location_city = COALESCE($4, location_city)," +:+ nl +:+
  "                location_pincode = COALESCE($5, location_pincode)," +:+ nl +:+
  "                vehicle_types = COALESCE($6, vehicle_types)" +:+ nl +:+
  "            WHERE driver_id = $7" +:+ nl +:+
  "            RETURNING *".

Definition select_drivers : string :=
  "SELECT * FROM drivers ORDER BY joining_date, driver_name".

Definition select_driver : string :=
  "SELECT * FROM drivers WHERE driver_id = $1".

Definition delete_driver_text : string :=
  "DELETE FROM drivers WHERE driver_id = $1 RETURNING *".

(** [conditions.join(' OR ')] *)
Fixpoint join (sep : string) (pieces : list string) : string :=
  match pieces with
  | [] => EmptyString
  | [piece] => piece
  | piece :: pieces' => piece +:+ sep +:+ join sep pieces'
  end.

(** The validation chains of the login, create and update routes. *)
Definition login_checks : list chain :=
  [ ("username", [NotEmpty; WithMessage "Username is required"]);
    ("password", [NotEmpty; WithMessage "Password is required"]) ].

Definition create_checks : list chain :=
  [ ("driverName", [IsString; NotEmpty; WithMessage "Driver name is required"]);
    ("fleetId", [IsString; NotEmpty; WithMessage "Fleet ID is required"]);
    ("licenseID", [IsString; NotEmpty; WithMessage "License ID is required"]);
    ("location.City", [IsString; WithMessage "City is required"]);
    ("location.Pincode",
     [IsString; IsLength 5 10;
      WithMessage "Pin code must be between 5 and 10 characters"]);
    ("vehicleTypes",
     [IsArray; NotEmpty; WithMessage "Vehicle types are required"]) ].

Definition update_checks : list chain :=
  [ ("driverName", [Optional; IsString]);
    ("fleetId", [Optional; IsString; NotEmpty]);
    ("licenseID", [Optional; IsString; NotEmpty]);
    ("location.City", [Optional; IsString]);
    ("location.Pincode", [Optional; IsString; IsLength 5 10]);
    ("vehicleTypes", [Optional; IsArray]) ].

Section Handlers.
Context `{J : Jws}.

(** [process.env] *)
Variable env : gmap string string.

(** Modelled from the spec: [pool.query(text, values)] of the storage
    layer ([require('../db')], not among the sources), as it answers while
    one request is handled: the rows, or the error it throws. A call
    without values is a call with none. *)
Variable pool : string → list sqlvalue → result (list row).

(** Modelled from the spec: [validationResult(req).array()] of the
    validation layer (the express-validator package, not among the
    sources): the errors the chains of a route leave for a body. *)
Variable validationResult : list chain → json → list json.

Definition pool_query (text : string) (values : list sqlvalue)
    : route (result (list row)) :=
  emit (Query text values) ;; mret (pool text values).

(** <<
    async (req, res) => {
        const errors = validationResult(req);
        if (!errors.isEmpty()) {
            return res.status(400).json({ errors: errors.array() });
        }
        const { username, password } = req.body;
        try {
            const query = 'SELECT * FROM users WHERE username = $1 AND password = $2';
            const values = [username, password];
            const { rows } = await pool.query(query, values);
            if (rows.length > 0) {
                const user = rows[0];
                const token = generateToken({ id: user.user_id, username: user.username });
                return res.status(200).json({ user, token });
            } else {
                res.status(401).json({ message: 'Invalid credentials' });
            }
        } catch (error) {
            res.status(500).json({ error: error.message });
        }
    }
    >> An exception of [generateToken] is thrown inside the [try]; taking
    the members of a null body throws before it. *)
Definition login (now : Z) (r : http) : route unit :=
  let errors := validationResult login_checks (body r) in
  match errors with
  | _ :: _ => send 400 (ValidationErrors errors)
  | [] =>
      if is_null (body r) then reject (cannot_destructure "username") else
      let username := member "username" (body r) in
      let password := member "password" (body r) in
      let query := select_user in
      let values := [username; password] in
      outcome ← pool_query query values;
      match outcome with
      | inl rows =>
          match rows with
          | user :: _ =>
              match generateToken env now (login_identity user) with
              | inl token => send 200 (Session user token)
              | inr error => send 500 (Said (error_body (message error)))
              end
          | [] => send 401 (Said (message_body "Invalid credentials"))
          end
      | inr error => send 500 (Said (error_body (message error)))
      end
  end.

(** <<
    async (req, res) => {
        const errors = validationResult(req);
        if (!errors.isEmpty()) {
            return res.status(400).json({ errors: errors.array() });
        }
        const { driverName, fleetId, licenseID, location, vehicleTypes } = req.body;
        const query = `...`;
        const values = [driverName, fleetId, licenseID, location.City, location['Pincode'], vehicleTypes];
        try {
            const { rows } = await pool.query(query, values);
            res.status(201).json(rows[0]);
        } catch (error) {
            res.status(500).json({ error: error.message });
        }
    }
    >> Taking the members of a null body, and reading [location.City] of a
    missing or null [location], throw before the [try]. *)
Definition create_driver (r : http) : route unit :=
  let errors := validationResult create_checks (body r) in
  match errors with
  | _ :: _ => send 400 (ValidationErrors errors)
  | [] =>
      if is_null (body r) then reject (cannot_destructure "driverName") else
      let driverName := member "driverName" (body r) in
      let fleetId := member "fleetId" (body r) in
      let licenseID := member "licenseID" (body r) in
      let location := member "location" (body r) in
      let vehicleTypes := member "vehicleTypes" (body r) in
      let query := insert_driver in
      match location with
      | None =>
          reject (Error "TypeError"
                    "Cannot read properties of undefined (reading 'City')")
      | Some JsNull =>
          reject (Error "TypeError"
                    "Cannot read properties of null (reading 'City')")
      | Some location =>
          let values :=
            [driverName; fleetId; licenseID; member "City" location;
             member "Pincode" location; vehicleTypes] in
          outcome ← pool_query query values;
          match outcome with
          | inl rows => send 201 (FirstRow (rows !! 0%nat))
          | inr error => send 500 (Said (error_body (message error)))
          end
      end
  end.

(** <<
    async (req, res) => {
        const { id } = req.params;
        const errors = validationResult(req);
        if (!errors.isEmpty()) {
            return res.status(400).json({ errors: errors.array() });
        }
        const { driverName, fleetId, licenseID, location, vehicleTypes } = req.body;
        const query = `...`;
        const values = [driverName, fleetId, licenseID, location?.City, location?.['Pincode'], vehicleTypes, id];
        try {
            const { rows } = await pool.query(query, values);
            if (rows.length > 0) {
                res.status(200).json(rows[0]);
            } else {
                res.status(404).json({ message: 'Driver not found' });
            }
        } catch (error) {
            res.status(500).json({ error: error.message });
        }
    }
    >> Taking the members of a null body throws before the [try]. *)
Definition update_driver (params : gmap string string) (r : http)
    : route unit :=
  let id := params !! "id" in
  let errors := validationResult update_checks (body r) in
  match errors with
  | _ :: _ => send 400 (ValidationErrors errors)
  | [] =>
      if is_null (body r) then reject (cannot_destructure "driverName") else
      let driverName := member "driverName" (body r) in
      let fleetId := member "fleetId" (body r) in
      let licenseID := member "licenseID" (body r) in
      let location := member "location" (body r) in
      let vehicleTypes := member "vehicleTypes" (body r) in
      let query := update_driver_text in
      let values :=
        [driverName; fleetId; licenseID; location ≫= member "City";
         location ≫= member "Pincode"; vehicleTypes; JsString <$> id] in
      outcome ← pool_query query values;
      match outcome with
      | inl rows =>
          if (0 <? length rows)%nat
          then send 200 (FirstRow (rows !! 0%nat))
          else send 404 (Said (message_body "Driver not found"))
      | inr error => send 500 (Said (error_body (message error)))
      end
  end.

(** <<
    router.get('/', async (req, res) => {
        const query = 'SELECT * FROM drivers ORDER BY joining_date, driver_name';
        try {
            const { rows } = await pool.query(query);
            res.status(200).json(rows);
        } catch (error) {
            res.status(500).json({ error: error.message });
        }
    });
    >> *)
Definition list_drivers : route unit :=
  let query := select_drivers in
  outcome ← pool_query query [];
  match outcome with
  | inl rows => send 200 (Rows rows)
  | inr error => send 500 (Said (error_body (message error)))
  end.

(** The read and the delete handlers differ in the statement only:
    <<
    async (req, res) => {
        const { id } = req.params;
        const query = '...';
        const values = [id];
        try {
            const { rows } = await pool.query(query, values);
            if (rows.length > 0) {
                res.status(200).json(rows[0]);
            } else {
                res.status(404).json({ message: 'Driver not found' });
            }
        } catch (error) {
            res.status(500).json({ error: error.message });
        }
    }
    >> *)
Definition by_id (query : string) (params : gmap string string)
    : route unit :=
  let id := params !! "id" in
  let values := [JsString <$> id] in
  outcome ← pool_query query values;
  match outcome with
  | inl rows =>
      if (0 <? length rows)%nat
      then send 200 (FirstRow (rows !! 0%nat))
      else send 404 (Said (message_body "Driver not found"))
  | inr error => send 500 (Said (error_body (message error)))
  end.

Definition get_driver : gmap string string → route unit :=
  by_id select_driver.

Definition delete_driver : gmap string string → route unit :=
  by_id delete_driver_text.

(** <<
    router.get('/search', async (req, res) => {
        const { name, id } = req.query;
        let query = 'SELECT * FROM drivers WHERE';
        let values = [];
        let conditions = [];
        if (id) {
            const parsedId = parseInt(id, 10);
            if (isNaN(parsedId)) {
                return res.status(400).json({ error: 'ID must be a valid number.' });
            }
            conditions.push('driver_id = $1');
            values.push(parsedId);
        }
        if (name) {
            conditions.push('driver_name ILIKE $2');
            values.push(`%${name}%`);
        }
        if (conditions.length === 0) {
            return res.status(400).json({ error: 'At least one query parameter (name or id) is required.' });
        }
        query += ' ' + conditions.join(' OR ') + ' ORDER BY driver_name';
        console.log('Query:', query);
        console.log('Values:', values);
        try {
            const { rows } = await pool.query(query, values);
            res.status(200).json(rows);
        } catch (error) {
            res.status(500).json({ error: error.message });
        }
    });
    >> The parameters of [req.query] are strings; the state of [values] and
    [conditions] after each [if] is passed on. *)
Definition search_id (id : option string)
    : option (list string * list sqlvalue) :=
  if Str.truthy (default "" id) then
    match parseInt (default "" id) with
    | None => None
    | Some parsedId => Some (["driver_id = $1"], [Some (JsNumber parsedId)])
    end
  else Some ([], []).

Definition search_name (name : option string)
    (state : list string * list sqlvalue) : list string * list sqlvalue :=
  if Str.truthy (default "" name) then
    (state.1 ++ ["driver_name ILIKE $2"],
     state.2 ++ [Some (JsString ("%" +:+ default "" name +:+ "%"))])
  else state.

Definition search (r : http) : route unit :=
  let name := query r !! "name" in
  let id := query r !! "id" in
  let query := "SELECT * FROM drivers WHERE" in
  match search_id id with
  | None => send 400 (Said (error_body "ID must be a valid number."))
  | Some state =>
      let '(conditions, values) := search_name name state in
      if (length conditions =? 0)%nat then
        send 400
          (Said (error_body
                   "At least one query parameter (name or id) is required."))
      else
        let query :=
          query +:+ " " +:+ join " OR " conditions +:+ " ORDER BY driver_name" in
        console_log "Query:" (ShownText query) ;;
        console_log "Values:" (ShownValues values) ;;
        outcome ← pool_query query values;
        match outcome with
        | inl rows => send 200 (Rows rows)
        | inr error => send 500 (Said (error_body (message error)))
        end
  end.

(** *** The router *)

(** Modelled from the spec: the routing layer (the express package, not
    among the sources). A router is the list of its layers in the order
    they were added: a route, with its method, its path, and its handler
    given the parameters of the path; or a middleware added with [use]. *)
Inductive layer : Type :=
  | Route (verb pattern : string) (h : gmap string string → http → route unit)
  | Use (m : handler unit).

(** Modelled from the spec: whether a route of the routing layer, given by
    its method and path, takes a request, and with which [req.params]. *)
Variable route_matches : string → string → http → option (gmap string string).

(** What became of a request: the guard's exchange, the route that handled
    the request, if one did, and the effects of its handler. *)
Record served : Type := Served {
  after : exchange;
  handled : option (string * string);
  effects : list effect
}.

(** The middleware called [next] in going from [e] to [e']. *)
Definition called_next (e e' : exchange) : bool :=
  bool_decide (Next ∈ drop (length (calls e)) (calls e')).

(** Modelled from the spec: the dispatch of the routing layer. The layers
    are tried in order. The first route that takes the request handles it,
    and no layer after it runs, as no handler here calls [next]; a
    middleware runs and the request goes on to the later layers only when
    it called [next]. *)
Fixpoint dispatch (layers : list layer) (r : http) (e : exchange) : served :=
  match layers with
  | [] => {| after := e; handled := None; effects := [] |}
  | Route verb pattern h :: layers' =>
      match route_matches verb pattern r with
      | Some params =>
          {| after := e; handled := Some (verb, pattern);
             effects := run (h params r) |}
      | None => dispatch layers' r e
      end
  | Use m :: layers' =>
      let e' := (m e).2 in
      if called_next e e' then dispatch layers' r e'
      else {| after := e'; handled := None; effects := [] |}
  end.

(** The router of the file, in the order of the source:
    <<
    router.post('/login', [...], ...);
    router.use(authenticate);
    router.post('/', [...], ...);
    router.post('/:id', [...], ...);
    router.get('/', ...);
    router.get('/:id', ...);
    router.delete('/:id', ...);
    router.get('/search', ...);
    >> *)
Definition guarded_routes : list layer :=
  [ Route "POST" "/" (λ _, create_driver);
    Route "POST" "/:id" update_driver;
    Route "GET" "/" (λ _ _, list_drivers);
    Route "GET" "/:id" (λ params _, get_driver params);
    Route "DELETE" "/:id" (λ params _, delete_driver params);
    Route "GET" "/search" (λ _, search) ].

Definition router (now : Z) : list layer :=
  Route "POST" "/login" (λ _, login now)
  :: Use (authenticate env now)
  :: guarded_routes.

(** A request served at clock [now]. *)
Definition serve (now : Z) (r : http) : served :=
  dispatch (router now) r (incoming (auth r)).

End Handlers.

(** The statements the handlers can send to the storage layer. *)
Definition statements : list string :=
  [ select_user; insert_driver; update_driver_text; select_drivers;
    select_driver; delete_driver_text;
    "SELECT * FROM drivers WHERE driver_id = $1 ORDER BY driver_name";
    "SELECT * FROM drivers WHERE driver_name ILIKE $2 ORDER BY driver_name";
    "SELECT * FROM drivers WHERE driver_id = $1 OR driver_name ILIKE $2 ORDER BY driver_name" ].

(** [Reply] and [Reject] end a handler. *)
Definition final (f : effect) : bool :=
  match f with
  | Reply _ _ | Reject _ => true
  | Query _ _ | Console _ _ => false
  end.

Definition is_query (f : effect) : bool :=
  match f with
  | Query _ _ => true
  | _ => false
  end.

End Routes.

(** A run of a handler that answers once: one final effect, at the end, and
    at most one query. *)
Definition one_answer (fs : list Routes.effect) : bool :=
  match rev fs with
  | f :: before =>
      Routes.final f && forallb (λ x, negb (Routes.final x)) before
      && (length (List.filter Routes.is_query fs) <=? 1)%nat
  | [] => false
  end.

(** Collaborators for the examples: a store with one user and one driver, a
    validation that asks for an object as body, and a matcher that takes a
    path equal to the pattern, and for [/:id] a path of one piece. *)
Definition example_driver : Routes.row :=
  {[ "driver_id" := JNum 7; "driver_name" := JStr "Bo" ]}.

Definition example_pool (text : string) (values : list Routes.sqlvalue)
    : result (list Routes.row) :=
  if String.eqb text Routes.select_user then
    match values with
    | [Some (Routes.JsString "ann"); Some (Routes.JsString "pw")] =>
        inl [example_row]
    | _ => inl []
    end
  else if String.eqb text Routes.select_driver then
    match values with
    | [Some (Routes.JsString "7")] => inl [example_driver]
    | [Some (Routes.JsString _)] => inl []
    | _ => inr (Error "error" "invalid input syntax for type integer")
    end
  else if String.eqb text Routes.select_drivers then inl [example_driver]
  else inr (Error "error" "there is no parameter $2").

Definition example_validation (checks : list Routes.chain) (body : Routes.json)
    : list Routes.json :=
  match body with
  | Routes.JsObject _ => []
  | _ => [Routes.JsString "Invalid value"]
  end.

Definition example_matches (verb pattern : string) (r : Routes.http)
    : option (gmap string string) :=
  if String.eqb (Routes.method r) verb then
    if String.eqb pattern "/:id" then
      match Routes.path r with
      | String "/" piece =>
          if Str.truthy piece && Str.lacks "/" piece
          then Some {[ "id" := piece ]}
          else None
      | _ => None
      end
    else if String.eqb (Routes.path r) pattern then Some ∅ else None
  else None.

Definition example_http (verb path : string) (authorization : option string)
    (query : gmap string string) (body : Routes.json) : Routes.http :=
  {| Routes.method := verb; Routes.path := path;
     Routes.auth :=
       {| headers :=
            match authorization with
            | Some value => {[ "authorization" := value ]}
            | None => ∅
            end;
          user := None |};
     Routes.query := query; Routes.body := body |}.

Definition example_serve (now : Z) (r : Routes.http) : Routes.served :=
  Routes.serve example_env example_pool example_validation example_matches now r.

Definition example_login_body : Routes.json :=
  Routes.JsObject
    [("username", Routes.JsString "ann"); ("password", Routes.JsString "pw")].

(** The answer of a handler that looks a driver up follows the rows the
    statement returned: 404 for none, 200 with the first row, and 500 with
    the message of the error when the statement threw; and it is the only
    response. *)
Definition answers_by_rows (fs : list Routes.effect)
    (outcome : result (list Routes.row)) : Prop :=
  (∀ body, Routes.Reply 404 body ∈ fs
           ↔ outcome = inl [] ∧ body = Routes.Said (message_body "Driver not found"))
  ∧ (∀ body, Routes.Reply 200 body ∈ fs
             ↔ ∃ first others,
                 outcome = inl (first :: others)
                 ∧ body = Routes.FirstRow (Some first))
  ∧ (∀ body, Routes.Reply 500 body ∈ fs
             ↔ ∃ e, outcome = inr e
                    ∧ body = Routes.Said (Routes.error_body (message e)))
  ∧ ∀ status body, Routes.Reply status body ∈ fs →
                   status = 404 ∨ status = 200 ∨ status = 500.

Definition example_login : Routes.http :=
  example_http "POST" "/login" None ∅ example_login_body.

Definition example_login_token : string :=
  match generateToken example_env 5000 (login_identity example_row) with
  | inl token => token
  | inr _ => ""
  end.

Definition example_read : Routes.http :=
  example_http "GET" "/7" (Some ("Bearer " +:+ example_login_token)) ∅
    Routes.JsNull.

Definition example_search (id name : option string) : Routes.http :=
  example_http "GET" "/search" None
    (match id with Some v => <["id" := v]> | None => λ m, m end
       (match name with Some v => {[ "name" := v ]} | None => ∅ end))
    Routes.JsNull.

(** * Properties *)

(** ** Splitting *)

Module StrFacts.
Import Str.
#[local] Arguments String.append !_ _ / : simpl nomatch.

Example split_examples :
  split " " "Bearer abc" = ["Bearer"; "abc"]
  ∧ split " " "Bearer" = ["Bearer"]
  ∧ split " " "Bearer " = ["Bearer"; ""]
  ∧ split " " "a  b" = ["a"; ""; "b"]
  ∧ split " " "" = [""]
  ∧ split "." "h.p.s" = ["h"; "p"; "s"].
Proof. by vm_compute. Qed.

Lemma split_nonempty sep s : split sep s ≠ [].
Proof. destruct s as [|c s]; simpl; [done|]. by repeat case_match. Qed.

Lemma split_lacks sep s : lacks sep s = true → split sep s = [s].
Proof.
  induction s as [|c s IH]; simpl; [done|].
  intros [Hc Hs]%andb_prop. apply negb_true_iff in Hc. rewrite Hc.
  by rewrite (IH Hs).
Qed.

Lemma split_app sep a b :
  lacks sep a = true → split sep (a +:+ String sep b) = a :: split sep b.
Proof.
  induction a as [|c a IH]; simpl.
  - intros _. by rewrite Ascii.eqb_refl.
  - intros [Hc Ha]%andb_prop. apply negb_true_iff in Hc. rewrite Hc.
    by rewrite (IH Ha).
Qed.

Lemma lacks_app sep a b :
  lacks sep (a +:+ b) = lacks sep a && lacks sep b.
Proof.
  induction a as [|c a IH]; simpl; [done|]. by rewrite IH, andb_assoc.
Qed.

Lemma all_lacks p sep s :
  p sep = false → all p s = true → lacks sep s = true.
Proof.
  intros Hsep. induction s as [|c s IH]; simpl; [done|].
  intros [Hc Hs]%andb_prop. rewrite (IH Hs), andb_true_r.
  apply negb_true_iff, Ascii.eqb_neq. congruence.
Qed.

Lemma base64url_lacks_space s : base64url s = true → lacks " " s = true.
Proof. by apply all_lacks. Qed.

Lemma base64url_lacks_dot s : base64url s = true → lacks "." s = true.
Proof. by apply all_lacks. Qed.

Lemma append_assoc (a b c : string) : (a +:+ b) +:+ c = a +:+ (b +:+ c).
Proof. induction a as [|x a IH]; simpl; [done|]. by f_equal. Qed.

Lemma truthy_split_three sep s h p g :
  split sep s = [h; p; g] → truthy s = true.
Proof. by destruct s. Qed.

End StrFacts.

(** ** The library model *)

Section LibraryFacts.
Context `{J : Jws}.

Lemma check_exp_expired claims exp now :
  claims !! "exp" = Some (JNum exp) → exp ≤ clockTimestamp now →
  check_exp claims now = throws (TokenExpiredError "jwt expired").
Proof.
  intros Hexp Hle. unfold check_exp. rewrite Hexp.
  destruct (Z.geb_spec (clockTimestamp now) exp); [done | lia].
Qed.

Lemma check_exp_live claims exp now :
  claims !! "exp" = Some (JNum exp) → clockTimestamp now < exp →
  check_exp claims now = returns claims.
Proof.
  intros Hexp Hlt. unfold check_exp. rewrite Hexp.
  destruct (Z.geb_spec (clockTimestamp now) exp); [lia | done].
Qed.

Lemma check_exp_returns claims now verified :
  check_exp claims now = inl verified → verified = claims.
Proof.
  unfold check_exp, returns, throws. intros Hc.
  repeat case_match; congruence.
Qed.

(** What [check_exp] throws is one of the two library errors. *)
Lemma check_exp_throws claims now error :
  check_exp claims now = inr error →
  error = TokenExpiredError "jwt expired"
  ∨ error = JsonWebTokenError "invalid exp value".
Proof.
  unfold check_exp, returns, throws. intros Hc.
  repeat case_match; naive_solver.
Qed.

Lemma jwt_verify_well_signed key token claims now :
  Str.truthy key = true → well_signed key token claims →
  jwt_verify token (Some key) now = check_exp claims now.
Proof.
  intros Hkey (header & payload & signature & Hsplit & [o Hh] & Hp & ->).
  unfold jwt_verify. rewrite Hsplit, Hh, Hp, Hkey.
  by rewrite String.eqb_refl.
Qed.

(** [jwt.verify] returns only for a token well signed under a present
    secret, and then it returns the claims of that token. *)
Lemma jwt_verify_returns token secret now verified :
  jwt_verify token secret now = inl verified →
  ∃ key, secret = Some key ∧ Str.truthy key = true
         ∧ well_signed key token verified
         ∧ check_exp verified now = inl verified.
Proof.
  unfold jwt_verify, throws. intros Hv.
  repeat case_match; simplify_eq.
  match goal with H : check_exp _ _ = _ |- _ =>
    pose proof (check_exp_returns _ _ _ H) as ->; rename H into Hc end.
  match goal with H : String.eqb _ _ = true |- _ =>
    apply String.eqb_eq in H as -> end.
  eexists. split_and!; [done..| |done].
  do 3 eexists. split_and!; [done | by eexists | done..].
Qed.

(** Without a signature that verifies under the secret, [jwt.verify]
    throws a [JsonWebTokenError]. *)
Lemma jwt_verify_not_signed token secret now :
  (∀ key claims, secret = Some key → ¬ well_signed key token claims) →
  ∃ msg, jwt_verify token secret now = throws (JsonWebTokenError msg).
Proof.
  intros Hno. unfold jwt_verify.
  repeat case_match; try (by eexists).
  exfalso. eapply Hno; [done|].
  match goal with H : String.eqb _ _ = true |- _ =>
    apply String.eqb_eq in H as -> end.
  do 3 eexists. split_and!; [done | by eexists | done..].
Qed.

(** Every exception of [jwt.verify] is named [TokenExpiredError] or
    [JsonWebTokenError], and the first only past the expiry of a well
    signed token. *)
Lemma jwt_verify_throws token secret now error :
  jwt_verify token secret now = inr error →
  (name error = "TokenExpiredError"
   ∧ ∃ key claims, secret = Some key ∧ Str.truthy key = true
       ∧ well_signed key token claims
       ∧ check_exp claims now = inr error)
  ∨ name error = "JsonWebTokenError".
Proof.
  unfold jwt_verify, throws. intros Hv.
  repeat case_match; simplify_eq; try (by right).
  match goal with H : check_exp _ _ = _ |- _ =>
    destruct (check_exp_throws _ _ _ H) as [->| ->]; rename H into Hc end;
    [left | by right].
  match goal with H : String.eqb _ _ = true |- _ =>
    apply String.eqb_eq in H as -> end.
  split; [done|]. do 2 eexists. split_and!; [done..| |done].
  do 3 eexists. split_and!; [done | by eexists | done..].
Qed.

End LibraryFacts.

(** ** The middleware, case by case *)

(** Unfold the monad and the primitive calls of a handler. *)
Ltac run_handler :=
  unfold authenticate, try_verify, res_status, res_json, next, set_user, log,
    get_req, mbind, mret, handler_bind, handler_ret;
  simpl.

Section GuardFacts.
Context `{J : Jws}.
Variable env : gmap string string.

Lemma authenticate_no_token now e :
  falsy (bearer_token (req e)) = true →
  authenticate env now e
  = (tt, {| req := req e; calls := calls e ++ surfaced NoToken |}).
Proof.
  intros Hf. run_handler. rewrite Hf. simpl. by rewrite <- app_assoc.
Qed.

Lemma authenticate_token now e token :
  bearer_token (req e) = Some token → Str.truthy token = true →
  authenticate env now e
  = match jwt_verify token (env !! "JWT_SECRET") now with
    | inl verified =>
        (tt, {| req := {| headers := headers (req e); user := Some verified |};
                calls := calls e ++ [Verify token; Next] |})
    | inr error =>
        (tt, {| req := req e;
                calls := calls e ++ Verify token :: surfaced (caught error) |})
    end.
Proof.
  intros Ht Htruthy. run_handler. rewrite Ht. simpl. rewrite Htruthy. simpl.
  destruct (jwt_verify _ _ _) as [verified|error]; simpl.
  - by rewrite <- app_assoc.
  - unfold caught. destruct (String.eqb _ _); simpl;
      by rewrite <- !app_assoc.
Qed.

(** The second piece of the header, for a header of the shape
    [scheme token] or [scheme token rest]. *)
Lemma bearer_token_scheme r scheme token :
  Str.lacks " " scheme = true → Str.lacks " " token = true →
  headers r !! "authorization" = Some (scheme +:+ " " +:+ token) →
  bearer_token r = Some token.
Proof.
  intros Hs Ht Hh. unfold bearer_token. rewrite Hh. simpl.
  change (scheme +:+ " " +:+ token) with (scheme +:+ String " " token).
  by rewrite StrFacts.split_app, StrFacts.split_lacks.
Qed.

Lemma bearer_token_scheme_rest r scheme token rest :
  Str.lacks " " scheme = true → Str.lacks " " token = true →
  headers r !! "authorization" = Some (scheme +:+ " " +:+ token +:+ " " +:+ rest) →
  bearer_token r = Some token.
Proof.
  intros Hs Ht Hh. unfold bearer_token. rewrite Hh. simpl.
  change (scheme +:+ " " +:+ token +:+ " " +:+ rest)
    with (scheme +:+ String " " (token +:+ String " " rest)).
  by rewrite !StrFacts.split_app.
Qed.

Lemma well_signed_truthy key token claims :
  well_signed key token claims → Str.truthy token = true.
Proof.
  intros (h & p & g & Hsplit & _). by eapply StrFacts.truthy_split_three.
Qed.

Section Issued.
Context {L : JwsLaws J}.

(** With a secret configured, [generateToken] returns a token: it is well
    signed under that secret over [issued_claims], and has no space in
    it. *)
Lemma generateToken_issues now user key :
  env !! "JWT_SECRET" = Some key → Str.truthy key = true →
  ∃ token, generateToken env now user = inl token
           ∧ well_signed key token (issued_claims now user)
           ∧ Str.lacks " " token = true.
Proof.
  intros Hkey Htruthy.
  unfold generateToken, jwt_sign. rewrite Hkey, Htruthy.
  eexists. split; [done|].
  fold (issued_claims now user).
  set (header := base64url_json jose_header).
  set (payload := base64url_json (issued_claims now user)).
  pose proof (base64url_json_alphabet jose_header) as Hh.
  pose proof (base64url_json_alphabet (issued_claims now user)) as Hp.
  pose proof (hmac_alphabet key (signing_input header payload)) as Hg.
  fold header in Hh. fold payload in Hp.
  split.
  - exists header, payload, (hmac key (signing_input header payload)).
    split_and!; [ | unfold header; by rewrite json_base64url_json
                  | unfold payload; by rewrite json_base64url_json | done].
    unfold signing_input at 1. rewrite StrFacts.append_assoc.
    change (header +:+ ("." +:+ payload) +:+ "." +:+ ?g)
      with (header +:+ String "." (payload +:+ String "." g)).
    rewrite !StrFacts.split_app by by apply StrFacts.base64url_lacks_dot.
    by rewrite StrFacts.split_lacks by by apply StrFacts.base64url_lacks_dot.
  - unfold signing_input at 1. rewrite !StrFacts.lacks_app.
    by rewrite (StrFacts.base64url_lacks_space header Hh),
      (StrFacts.base64url_lacks_space payload Hp),
      (StrFacts.base64url_lacks_space _ Hg).
Qed.

End Issued.

End GuardFacts.

(** ** The instance satisfies the laws *)

Module IdealFacts.
Import Ideal.

Lemma read_write p : read (write p) = Some p.
Proof. induction p as [p IH|p IH|]; simpl; by rewrite ?IH. Qed.

Lemma write_alphabet p : Str.base64url (write p) = true.
Proof. induction p as [p IH|p IH|]; simpl; by rewrite ?IH. Qed.

Lemma write_inj p q : write p = write q → p = q.
Proof.
  intros Heq. apply (inj Some). by rewrite <- !read_write, Heq.
Qed.

#[global] Instance laws : JwsLaws jws.
Proof.
  split.
  - intros o. simpl. rewrite read_write. simpl. apply decode_encode.
  - intros o. apply write_alphabet.
  - intros key input. apply write_alphabet.
Qed.

(** Different keys give different signatures on every input. *)
Lemma hmac_key_inj key key' input :
  hmac key input = hmac key' input → key = key'.
Proof.
  simpl. intros Heq%write_inj%(inj encode). congruence.
Qed.

End IdealFacts.

Example example_accepted :
  ∃ token, example_run 1000000 (example_bearer 5000) = [Verify token; Next].
Proof. vm_compute. by eexists. Qed.

Example example_last_second :
  ∃ token, example_run 1804999 (example_bearer 5000) = [Verify token; Next].
Proof. vm_compute. by eexists. Qed.

Example example_expired :
  ∃ token,
    example_run 1805000 (example_bearer 5000)
    = Verify token :: surfaced TokenExpired.
Proof. vm_compute. by eexists. Qed.

Example example_wrong_scheme :
  example_run 0 "Token abc" = Verify "abc" :: surfaced InvalidToken.
Proof. by vm_compute. Qed.

Example example_no_second_piece :
  example_run 0 "Bearer" = surfaced NoToken.
Proof. by vm_compute. Qed.

Lemma example_token_well_signed issued :
  well_signed "s3cret" (example_token issued) (issued_claims issued example_user).
Proof.
  unfold example_token.
  by destruct (generateToken_issues example_env issued example_user "s3cret")
    as (token & -> & Hsigned & _).
Qed.

Lemma example_token_bearer issued :
  bearer_token (with_authorization (example_bearer issued))
  = Some (example_token issued).
Proof.
  unfold example_bearer, example_token.
  destruct (generateToken_issues example_env issued example_user "s3cret")
    as (token & -> & _ & Hspace); [done..|].
  apply (bearer_token_scheme _ "Bearer" token); [done..|].
  apply lookup_singleton_eq.
Qed.

(** * The claims *)

(** C1. A token issued by [generateToken] for an identity with a subject
    identifier [id], presented as [Bearer <token>] to [authenticate] under
    the same secret while the clock is within thirty minutes of the
    issuance (both read in whole seconds, as the token carries them), is
    accepted: [jwt.verify] is called on it, the decoded claim is attached as
    [req.user], its [id] is the one issued, and [next] is called. *)
Theorem issue_then_authorize `{J : Jws} {L : JwsLaws J}
    (env : gmap string string) (key : string) (user : jobject) (id : jvalue)
    (issued now : Z) :
  env !! "JWT_SECRET" = Some key → Str.truthy key = true →
  user !! "id" = Some id →
  clockTimestamp now < clockTimestamp issued + thirty_minutes →
  ∃ token claims,
    generateToken env issued user = inl token
    ∧ claims !! "id" = Some id
    ∧ ∀ e, headers (req e) !! "authorization" = Some ("Bearer " +:+ token) →
        authenticate env now e
        = (tt, {| req := {| headers := headers (req e); user := Some claims |};
                  calls := calls e ++ [Verify token; Next] |}).
Proof.
  intros Hkey Htruthy Hid Hnow.
  destruct (generateToken_issues env issued user key Hkey Htruthy)
    as (token & Hgen & Hsigned & Hspace).
  exists token, (issued_claims issued user). split_and!; [done| |].
  - unfold issued_claims. rewrite Hid. by simplify_map_eq.
  - intros e Hh.
    assert (bearer_token (req e) = Some token) as Htok
      by (by apply (bearer_token_scheme (req e) "Bearer" token)).
    rewrite (authenticate_token env now e token Htok)
      by by eapply well_signed_truthy.
    rewrite Hkey, (jwt_verify_well_signed key token _ now Htruthy Hsigned).
    by rewrite (check_exp_live _ (clockTimestamp issued + thirty_minutes))
      by (by unfold issued_claims; simplify_map_eq).
Qed.

Lemma issue_then_authorize_witness :
  ∃ token claims,
    generateToken example_env 5000 example_user = inl token
    ∧ claims !! "id" = Some (JNum 42)
    ∧ ∀ e, headers (req e) !! "authorization" = Some ("Bearer " +:+ token) →
        authenticate example_env 1000000 e
        = (tt, {| req := {| headers := headers (req e); user := Some claims |};
                  calls := calls e ++ [Verify token; Next] |}).
Proof.
  apply (issue_then_authorize example_env "s3cret" example_user (JNum 42)
           5000 1000000); [reflexivity | reflexivity | reflexivity |].
  vm_compute. reflexivity.
Defined.

(** C2. A token whose signature verifies against the guard's secret and
    whose embedded expiry is not after the current clock is turned down
    with [TokenExpired]: status 401 and the message "Token has expired.
    Please log in again."; this is not the [InvalidToken] response. The
    request is left as it was and [next] is not called. *)
Theorem expired_token_rejected `{J : Jws}
    (env : gmap string string) (key : string) (now : Z) (e : exchange)
    (token : string) (claims : jobject) (exp : Z) :
  env !! "JWT_SECRET" = Some key → Str.truthy key = true →
  bearer_token (req e) = Some token →
  well_signed key token claims →
  claims !! "exp" = Some (JNum exp) → exp ≤ clockTimestamp now →
  authenticate env now e
  = (tt, {| req := req e;
            calls := calls e ++ Verify token :: surfaced TokenExpired |})
  ∧ surfaced TokenExpired
    = [Status 401;
       Json {[ "message" := JStr "Token has expired. Please log in again." ]}]
  ∧ surfaced TokenExpired ≠ surfaced InvalidToken.
Proof.
  intros Hkey Htruthy Htok Hsigned Hexp Hle. split_and!; [|done..].
  rewrite (authenticate_token env now e token Htok)
    by by eapply well_signed_truthy.
  rewrite Hkey, (jwt_verify_well_signed key token _ now Htruthy Hsigned).
  by rewrite (check_exp_expired _ exp).
Qed.

Lemma expired_token_rejected_witness :
  authenticate example_env 1805000
    (incoming (with_authorization (example_bearer 5000)))
  = (tt, {| req := with_authorization (example_bearer 5000);
            calls := [] ++ Verify (example_token 5000) :: surfaced TokenExpired |})
  ∧ surfaced TokenExpired
    = [Status 401;
       Json {[ "message" := JStr "Token has expired. Please log in again." ]}]
  ∧ surfaced TokenExpired ≠ surfaced InvalidToken.
Proof.
  apply (expired_token_rejected example_env "s3cret" 1805000
           (incoming (with_authorization (example_bearer 5000)))
           (example_token 5000) (issued_claims 5000 example_user) 1805).
  - reflexivity.
  - reflexivity.
  - apply example_token_bearer.
  - apply example_token_well_signed.
  - vm_compute. reflexivity.
  - vm_compute. discriminate.
Defined.

(** C3. A token presented to the guard that is malformed, or whose
    signature does not verify under the guard's secret, in particular a
    token well signed under another secret that signs differently, is
    turned down with [InvalidToken]: status 400 and the message "Invalid
    token.". The request is left as it was and [next] is not called. *)
Theorem invalid_token_rejected `{J : Jws}
    (env : gmap string string) (now : Z) (e : exchange) (token : string) :
  bearer_token (req e) = Some token → Str.truthy token = true →
  (∀ key claims,
     env !! "JWT_SECRET" = Some key → ¬ well_signed key token claims)
  ∨ (∃ key' claims',
       well_signed key' token claims'
       ∧ ∀ key input,
           env !! "JWT_SECRET" = Some key → hmac key' input ≠ hmac key input) →
  authenticate env now e
  = (tt, {| req := req e;
            calls := calls e ++ Verify token :: surfaced InvalidToken |})
  ∧ surfaced InvalidToken
    = [Status 400; Json {[ "message" := JStr "Invalid token." ]}].
Proof.
  intros Htok Htruthy Hbad. split; [|done].
  assert (∀ key claims,
    env !! "JWT_SECRET" = Some key → ¬ well_signed key token claims) as Hno.
  { destruct Hbad as [Hno|(key' & claims' & Hsigned' & Hdiff)]; [done|].
    intros key claims Hkey (h & p & g & Hsplit & _ & _ & Hg).
    destruct Hsigned' as (h' & p' & g' & Hsplit' & _ & _ & Hg').
    rewrite Hsplit in Hsplit'. simplify_eq.
    by eapply Hdiff. }
  rewrite (authenticate_token env now e token Htok Htruthy).
  by destruct (jwt_verify_not_signed token (env !! "JWT_SECRET") now Hno)
    as [msg ->].
Qed.

Lemma invalid_token_rejected_witness :
  authenticate (J := Ideal.jws) {[ "JWT_SECRET" := "other" ]} 1000000
    (incoming (with_authorization (example_bearer 5000)))
  = (tt, {| req := with_authorization (example_bearer 5000);
            calls := [] ++ Verify (example_token 5000) :: surfaced InvalidToken |})
  ∧ surfaced InvalidToken
    = [Status 400; Json {[ "message" := JStr "Invalid token." ]}].
Proof.
  apply (invalid_token_rejected {[ "JWT_SECRET" := "other" ]} 1000000
           (incoming (with_authorization (example_bearer 5000)))
           (example_token 5000)).
  - apply example_token_bearer.
  - vm_compute. reflexivity.
  - right. exists "s3cret", (issued_claims 5000 example_user).
    split; [apply example_token_well_signed|].
    intros key input [_ <-]%lookup_singleton_Some Heq.
    by apply IdealFacts.hmac_key_inj in Heq.
Defined.

(** C4. A request without an authorization header, or whose header has no
    second piece when split at spaces, is turned down with [NoToken]:
    status 401 and the message "Access denied. No token provided.". No call
    to [jwt.verify] is made, the request is left as it was and [next] is
    not called. *)
Theorem missing_token_rejected `{J : Jws}
    (env : gmap string string) (now : Z) (e : exchange) :
  headers (req e) !! "authorization" = None
  ∨ (∃ value, headers (req e) !! "authorization" = Some value
              ∧ Str.split " " value !! 1%nat = None) →
  authenticate env now e
  = (tt, {| req := req e; calls := calls e ++ surfaced NoToken |})
  ∧ surfaced NoToken
    = [Status 401;
       Json {[ "message" := JStr "Access denied. No token provided." ]}]
  ∧ ∀ token, Verify token ∉ surfaced NoToken.
Proof.
  intros Hmissing. split_and!; [|done|].
  - apply authenticate_no_token. unfold bearer_token.
    by destruct Hmissing as [->|(value & -> & Hnone)]; simpl; rewrite ?Hnone.
  - intros token. simpl. rewrite !not_elem_of_cons.
    split_and!; [done..|apply not_elem_of_nil].
Qed.

Lemma missing_token_rejected_witness :
  authenticate (J := Ideal.jws) example_env 0
    (incoming (with_authorization "Bearer"))
  = (tt, {| req := with_authorization "Bearer";
            calls := [] ++ surfaced NoToken |})
  ∧ surfaced NoToken
    = [Status 401;
       Json {[ "message" := JStr "Access denied. No token provided." ]}]
  ∧ ∀ token, Verify token ∉ surfaced NoToken.
Proof.
  apply (missing_token_rejected example_env 0
           (incoming (with_authorization "Bearer"))).
  right. exists "Bearer". split; vm_compute; reflexivity.
Defined.

(** C8. A request whose authorization header has the empty string as its
    second piece, such as [Bearer ] with a space at the end or [Bearer  x]
    with two spaces in a row, is turned down with [NoToken] (401), not with
    [InvalidToken], and without a call to [jwt.verify]: the empty token is
    treated as an absent one. *)
Theorem empty_token_rejected `{J : Jws}
    (env : gmap string string) (now : Z) (e : exchange) (value : string) :
  headers (req e) !! "authorization" = Some value →
  Str.split " " value !! 1%nat = Some "" →
  authenticate env now e
  = (tt, {| req := req e; calls := calls e ++ surfaced NoToken |})
  ∧ surfaced NoToken ≠ surfaced InvalidToken
  ∧ (∀ token, calls e ++ surfaced NoToken
              ≠ calls e ++ Verify token :: surfaced InvalidToken)
  ∧ Str.split " " "Bearer " !! 1%nat = Some ""
  ∧ Str.split " " "Bearer  x" !! 1%nat = Some "".
Proof.
  intros Hvalue Hempty. split_and!; [|done| |done..].
  - apply authenticate_no_token. unfold bearer_token.
    rewrite Hvalue. simpl. by rewrite Hempty.
  - intros token Heq%app_inv_head. discriminate Heq.
Qed.

Lemma empty_token_rejected_witness :
  authenticate (J := Ideal.jws) example_env 0
    (incoming (with_authorization "Bearer  x"))
  = (tt, {| req := with_authorization "Bearer  x";
            calls := [] ++ surfaced NoToken |})
  ∧ surfaced NoToken ≠ surfaced InvalidToken
  ∧ (∀ token, [] ++ surfaced NoToken
              ≠ [] ++ Verify token :: surfaced InvalidToken)
  ∧ Str.split " " "Bearer " !! 1%nat = Some ""
  ∧ Str.split " " "Bearer  x" !! 1%nat = Some "".
Proof.
  apply (empty_token_rejected example_env 0
           (incoming (with_authorization "Bearer  x")) "Bearer  x");
    vm_compute; reflexivity.
Defined.

(** C5. With a secret configured, [generateToken] returns a token whose
    payload carries [iat], the issuance time in seconds, and [exp = iat +
    30 * 60], for every identity and every issuance time. No later call
    moves the expiry: whatever calls were made on a request before,
    [authenticate] leaves the header (and so the token) as it is, accepts
    the token exactly while the clock is before [iat + 30 * 60] and turns
    it down as expired exactly from then on. *)
Theorem fixed_lifetime `{J : Jws} {L : JwsLaws J}
    (env : gmap string string) (key : string) (user : jobject) (issued : Z) :
  env !! "JWT_SECRET" = Some key → Str.truthy key = true →
  ∃ token header payload signature claims,
    generateToken env issued user = inl token
    ∧ Str.split "." token = [header; payload; signature]
    ∧ json_base64url payload = Some claims
    ∧ claims !! "iat" = Some (JNum (clockTimestamp issued))
    ∧ claims !! "exp" = Some (JNum (clockTimestamp issued + 30 * 60))
    ∧ ∀ now e,
        headers (req e) !! "authorization" = Some ("Bearer " +:+ token) →
        let e' := (authenticate env now e).2 in
        headers (req e') = headers (req e)
        ∧ (calls e' = calls e ++ [Verify token; Next]
           ↔ clockTimestamp now < clockTimestamp issued + 30 * 60)
        ∧ (calls e' = calls e ++ Verify token :: surfaced TokenExpired
           ↔ clockTimestamp issued + 30 * 60 ≤ clockTimestamp now).
Proof.
  intros Hkey Htruthy.
  destruct (generateToken_issues env issued user key Hkey Htruthy)
    as (token & Hgen & Hsigned & Hspace).
  pose proof Hsigned as (header & payload & signature & Hsplit & _ & Hp & _).
  exists token, header, payload, signature, (issued_claims issued user).
  assert (issued_claims issued user !! "exp"
          = Some (JNum (clockTimestamp issued + 30 * 60))) as Hexp
    by (by unfold issued_claims; simplify_map_eq).
  split_and!; [done..| by unfold issued_claims; simplify_map_eq | done |].
  intros now e Hh.
  assert (bearer_token (req e) = Some token) as Htok
    by (by apply (bearer_token_scheme (req e) "Bearer" token)).
  simpl. rewrite (authenticate_token env now e token Htok)
    by by eapply well_signed_truthy.
  rewrite Hkey, (jwt_verify_well_signed key token _ now Htruthy Hsigned).
  destruct (Z.lt_ge_cases (clockTimestamp now)
              (clockTimestamp issued + 30 * 60)) as [Hlive|Hdead].
  - rewrite (check_exp_live _ _ now Hexp Hlive). simpl.
    split_and!; [done | done |].
    split; [intros Heq%app_inv_head; discriminate Heq | lia].
  - rewrite (check_exp_expired _ _ now Hexp Hdead). simpl.
    split_and!; [done | | done].
    split; [intros Heq%app_inv_head; discriminate Heq | lia].
Qed.

Lemma fixed_lifetime_witness :
  ∃ token header payload signature claims,
    generateToken example_env 5000 example_user = inl token
    ∧ Str.split "." token = [header; payload; signature]
    ∧ json_base64url payload = Some claims
    ∧ claims !! "iat" = Some (JNum (clockTimestamp 5000))
    ∧ claims !! "exp" = Some (JNum (clockTimestamp 5000 + 30 * 60))
    ∧ ∀ now e,
        headers (req e) !! "authorization" = Some ("Bearer " +:+ token) →
        let e' := (authenticate example_env now e).2 in
        headers (req e') = headers (req e)
        ∧ (calls e' = calls e ++ [Verify token; Next]
           ↔ clockTimestamp now < clockTimestamp 5000 + 30 * 60)
        ∧ (calls e' = calls e ++ Verify token :: surfaced TokenExpired
           ↔ clockTimestamp 5000 + 30 * 60 ≤ clockTimestamp now).
Proof.
  apply (fixed_lifetime example_env "s3cret" example_user 5000);
    reflexivity.
Defined.

(** C6, as amended. For a request whose authorization header has a
    non-empty second piece when split at spaces, whatever the first piece
    (the scheme) is, [authenticate] calls [jwt.verify] on that second piece
    and the outcome is the one of that call alone: the scheme does not
    enter it. When the piece is not a token well signed under the guard's
    secret, the request is turned down with [InvalidToken]; the header
    [Token abc] is an instance. *)
Theorem second_piece_verified `{J : Jws}
    (env : gmap string string) (now : Z) (e : exchange)
    (value scheme token : string) (rest : list string) :
  headers (req e) !! "authorization" = Some value →
  Str.split " " value = scheme :: token :: rest →
  Str.truthy token = true →
  authenticate env now e
  = match jwt_verify token (env !! "JWT_SECRET") now with
    | inl verified =>
        (tt, {| req := {| headers := headers (req e); user := Some verified |};
                calls := calls e ++ [Verify token; Next] |})
    | inr error =>
        (tt, {| req := req e;
                calls := calls e ++ Verify token :: surfaced (caught error) |})
    end
  ∧ ((∀ key claims,
        env !! "JWT_SECRET" = Some key → ¬ well_signed key token claims) →
     authenticate env now e
     = (tt, {| req := req e;
               calls := calls e ++ Verify token :: surfaced InvalidToken |}))
  ∧ authenticate env now (incoming (with_authorization "Token abc"))
    = (tt, {| req := with_authorization "Token abc";
              calls := Verify "abc" :: surfaced InvalidToken |}).
Proof.
  intros Hvalue Hsplit Htruthy.
  assert (bearer_token (req e) = Some token) as Htok.
  { unfold bearer_token. rewrite Hvalue. simpl. by rewrite Hsplit. }
  split_and!.
  - by apply authenticate_token.
  - intros Hno. rewrite (authenticate_token env now e token Htok Htruthy).
    by destruct (jwt_verify_not_signed token (env !! "JWT_SECRET") now Hno)
      as [msg ->].
  - by rewrite (authenticate_token env now _ "abc").
Qed.

Lemma second_piece_verified_witness :
  authenticate (J := Ideal.jws) example_env 0
    (incoming (with_authorization "Basic abc extra"))
  = match jwt_verify "abc" (example_env !! "JWT_SECRET") 0 with
    | inl verified =>
        (tt, {| req := {| headers := {[ "authorization" := "Basic abc extra" ]};
                          user := Some verified |};
                calls := [] ++ [Verify "abc"; Next] |})
    | inr error =>
        (tt, {| req := with_authorization "Basic abc extra";
                calls := [] ++ Verify "abc" :: surfaced (caught error) |})
    end
  ∧ ((∀ key claims,
        example_env !! "JWT_SECRET" = Some key → ¬ well_signed key "abc" claims) →
     authenticate example_env 0 (incoming (with_authorization "Basic abc extra"))
     = (tt, {| req := with_authorization "Basic abc extra";
               calls := [] ++ Verify "abc" :: surfaced InvalidToken |}))
  ∧ authenticate example_env 0 (incoming (with_authorization "Token abc"))
    = (tt, {| req := with_authorization "Token abc";
              calls := Verify "abc" :: surfaced InvalidToken |}).
Proof.
  apply (second_piece_verified example_env 0
           (incoming (with_authorization "Basic abc extra"))
           "Basic abc extra" "Basic" "abc" ["extra"]);
    vm_compute; reflexivity.
Defined.

(** C6, as stated, fails on the header [Token  abc] (two spaces): it has
    the scheme [Token] and a second piece, the empty string, but no call to
    [jwt.verify] is made, on that piece or on [abc], and the request is
    turned down with [NoToken], not [InvalidToken]. *)
Lemma wrong_scheme_empty_piece_not_verified :
  let e := incoming (with_authorization "Token  abc") in
  let e' := (authenticate (J := Ideal.jws) example_env 0 e).2 in
  Str.split " " "Token  abc" = ["Token"; ""; "abc"]
  ∧ calls e' = surfaced NoToken
  ∧ (∀ token, Verify token ∉ calls e')
  ∧ calls e' ≠ Verify "" :: surfaced InvalidToken
  ∧ calls e' ≠ Verify "abc" :: surfaced InvalidToken.
Proof.
  intros e e'.
  assert (calls e' = surfaced NoToken) as -> by (by vm_compute).
  split_and!; [by vm_compute | done | | done | done].
  intros token. simpl. rewrite !not_elem_of_cons.
  split_and!; [done..|apply not_elem_of_nil].
Qed.

(** [jwt.verify] reads the clock in whole seconds only. *)
Lemma jwt_verify_clock `{J : Jws} token secret now now' :
  clockTimestamp now = clockTimestamp now' →
  jwt_verify token secret now = jwt_verify token secret now'.
Proof. intros Hclock. unfold jwt_verify, check_exp. by rewrite Hclock. Qed.

(** C7. The outcome of [authenticate], the calls it makes and the claim it
    attaches, is a function of the authorization header, the secret and the
    clock alone: two calls that agree on these agree on the outcome,
    whatever else the request and the environment hold and whatever
    happened on the request before. No call changes the headers, so
    calling it twice in a row on a request makes the same calls twice and
    attaches the same claim. *)
Theorem authorize_deterministic `{J : Jws}
    (env env' : gmap string string) (now now' : Z)
    (authorization : option string) :
  env !! "JWT_SECRET" = env' !! "JWT_SECRET" →
  clockTimestamp now = clockTimestamp now' →
  ∃ (made : list call) (attached : option jobject),
    ∀ e, headers (req e) !! "authorization" = authorization →
      let after := {| req := {| headers := headers (req e);
                                user := from_option Some (user (req e)) attached |};
                      calls := calls e ++ made |} in
      authenticate env now e = (tt, after)
      ∧ authenticate env' now' e = (tt, after)
      ∧ (authenticate env' now' after).2
        = {| req := {| headers := headers (req e);
                       user := from_option Some (user (req e)) attached |};
             calls := (calls e ++ made) ++ made |}.
Proof.
  intros Hsecret Hclock.
  set (token := authorization ≫= λ h, Str.split " " h !! 1%nat).
  assert (∀ e, headers (req e) !! "authorization" = authorization →
               bearer_token (req e) = token) as Htoken.
  { intros e He. unfold bearer_token. by rewrite He. }
  destruct (falsy token) eqn:Hfalsy.
  - exists (surfaced NoToken), None. intros [[hs u] cs] He. simpl in *.
    pose proof (Htoken (Exchange (Request hs u) []) He) as Hb. simpl in Hb.
    by rewrite !authenticate_no_token by (simpl; by rewrite Hb).
  - destruct token as [t|] eqn:Ht; [|done]. simpl in Hfalsy.
    apply negb_false_iff in Hfalsy.
    destruct (jwt_verify t (env !! "JWT_SECRET") now) as [verified|error]
      eqn:Hverify.
    + exists [Verify t; Next], (Some verified).
      intros [[hs u] cs] He. simpl in *.
      pose proof (Htoken (Exchange (Request hs u) []) He) as Hb. simpl in Hb.
      rewrite !(authenticate_token _ _ _ t) by done.
      rewrite <- Hsecret, <- (jwt_verify_clock t _ now now' Hclock).
      by rewrite Hverify.
    + exists (Verify t :: surfaced (caught error)), None.
      intros [[hs u] cs] He. simpl in *.
      pose proof (Htoken (Exchange (Request hs u) []) He) as Hb. simpl in Hb.
      rewrite !(authenticate_token _ _ _ t) by done.
      rewrite <- Hsecret, <- (jwt_verify_clock t _ now now' Hclock).
      by rewrite Hverify.
Qed.

Lemma authorize_deterministic_witness :
  ∃ (made : list call) (attached : option jobject),
    ∀ e, headers (req e) !! "authorization" = Some (example_bearer 5000) →
      let after := {| req := {| headers := headers (req e);
                                user := from_option Some (user (req e)) attached |};
                      calls := calls e ++ made |} in
      authenticate (J := Ideal.jws) example_env 1000000 e = (tt, after)
      ∧ authenticate (<["PORT" := "3000"]> example_env) 1000999 e = (tt, after)
      ∧ (authenticate (<["PORT" := "3000"]> example_env) 1000999 after).2
        = {| req := {| headers := headers (req e);
                       user := from_option Some (user (req e)) attached |};
             calls := (calls e ++ made) ++ made |}.
Proof.
  apply (authorize_deterministic example_env (<["PORT" := "3000"]> example_env)
           1000000 1000999 (Some (example_bearer 5000)));
    vm_compute; reflexivity.
Defined.

(** C9. Every run of [authenticate] ends in exactly one terminal call, a
    response sent or [next]. [next] is called exactly when [jwt.verify]
    returned on the presented token; then the calls are the verification
    and [next], and [req.user] is the verified claim. Otherwise the calls
    are those of one of the three rejections, after the verification if
    there was a token, and the request is left as it was. *)
Theorem one_terminal_outcome `{J : Jws}
    (env : gmap string string) (now : Z) (e : exchange) :
  let e' := (authenticate env now e).2 in
  ∃ made,
    calls e' = calls e ++ made
    ∧ length (List.filter terminal made) = 1%nat
    ∧ (Next ∈ made
       ↔ ∃ token verified,
           bearer_token (req e) = Some token ∧ Str.truthy token = true
           ∧ jwt_verify token (env !! "JWT_SECRET") now = inl verified)
    ∧ (Next ∈ made →
       ∃ token verified,
         made = [Verify token; Next]
         ∧ jwt_verify token (env !! "JWT_SECRET") now = inl verified
         ∧ req e' = {| headers := headers (req e); user := Some verified |})
    ∧ (Next ∉ made →
       req e' = req e
       ∧ ∃ k, made = surfaced k ∨ ∃ token, made = Verify token :: surfaced k).
Proof.
  simpl. destruct (falsy (bearer_token (req e))) eqn:Hfalsy.
  - rewrite (authenticate_no_token env now e Hfalsy). simpl.
    exists (surfaced NoToken).
    assert (Next ∉ surfaced NoToken) as Hnot.
    { simpl. rewrite !not_elem_of_cons.
      split_and!; [done..|apply not_elem_of_nil]. }
    split_and!; [done..| |done|].
    + split; [done|]. intros (token & verified & Htok & Htruthy & _).
      rewrite Htok in Hfalsy. simpl in Hfalsy. by rewrite Htruthy in Hfalsy.
    + intros _. split; [done|]. exists NoToken. by left.
  - destruct (bearer_token (req e)) as [token|] eqn:Htok; [|done].
    simpl in Hfalsy. apply negb_false_iff in Hfalsy.
    rewrite (authenticate_token env now e token Htok Hfalsy).
    destruct (jwt_verify token (env !! "JWT_SECRET") now)
      as [verified|error] eqn:Hverify; simpl.
    + exists [Verify token; Next].
      assert (Next ∈ [Verify token; Next]) as Hin
        by (rewrite !elem_of_cons; auto).
      split_and!; [done..| | |done].
      * split; [|done]. intros _. by exists token, verified.
      * intros _. by exists token, verified.
    + exists (Verify token :: surfaced (caught error)).
      assert (Next ∉ Verify token :: surfaced (caught error)) as Hnot.
      { destruct (caught error); simpl; rewrite !not_elem_of_cons;
          split_and!; (done || apply not_elem_of_nil). }
      split_and!; [done | by destruct (caught error) | | done |].
      * split; [done|]. intros (token' & verified & ? & _ & Hv).
        congruence.
      * intros _. split; [done|]. exists (caught error). right. by exists token.
Qed.

(** C10. The token depends on the identity through its [id] alone: two
    identities with the same [id] get the same token. The claims signed
    for an identity hold [id] (when the identity has one), [iat] and [exp]
    and nothing else, in particular no [username], also for the identity
    the login route builds, which does carry the username of the row. A
    call of [authenticate] on the token leaves the request as it was or
    attaches exactly these claims. *)
Theorem token_carries_id_only `{J : Jws} {L : JwsLaws J}
    (env : gmap string string) (key : string) (issued : Z) :
  env !! "JWT_SECRET" = Some key → Str.truthy key = true →
  (∀ user user',
     user !! "id" = user' !! "id" →
     generateToken env issued user = generateToken env issued user')
  ∧ (∀ row, login_identity row !! "username" = row !! "username"
            ∧ login_identity row !! "id" = row !! "user_id")
  ∧ ∀ user, ∃ token claims,
      generateToken env issued user = inl token
      ∧ well_signed key token claims
      ∧ (∀ k, is_Some (claims !! k) → k ∈ ["id"; "iat"; "exp"])
      ∧ claims !! "id" = user !! "id"
      ∧ claims !! "username" = None
      ∧ ∀ now e,
          headers (req e) !! "authorization" = Some ("Bearer " +:+ token) →
          req (authenticate env now e).2 = req e
          ∨ req (authenticate env now e).2
            = {| headers := headers (req e); user := Some claims |}.
Proof.
  intros Hkey Htruthy. split_and!.
  - intros user user' Hid. unfold generateToken. by rewrite Hid.
  - intros row. unfold login_identity.
    by destruct (row !! "user_id"), (row !! "username"); simplify_map_eq.
  - intros user.
    destruct (generateToken_issues env issued user key Hkey Htruthy)
      as (token & Hgen & Hsigned & Hspace).
    exists token, (issued_claims issued user). split_and!; [done..| | | |].
    + intros k [v Hk]. rewrite !elem_of_cons. unfold issued_claims in Hk.
      apply lookup_insert_Some in Hk as [[<- _]|[_ Hk]]; [auto|].
      apply lookup_insert_Some in Hk as [[<- _]|[_ Hk]]; [auto|].
      destruct (user !! "id");
        [apply lookup_singleton_Some in Hk as [<- _]; auto
        |by rewrite lookup_empty in Hk].
    + unfold issued_claims. by destruct (user !! "id"); simplify_map_eq.
    + unfold issued_claims. by destruct (user !! "id"); simplify_map_eq.
    + intros now e Hh.
      assert (bearer_token (req e) = Some token) as Htok
        by (by apply (bearer_token_scheme (req e) "Bearer" token)).
      rewrite (authenticate_token env now e token Htok)
        by by eapply well_signed_truthy.
      rewrite Hkey, (jwt_verify_well_signed key token _ now Htruthy Hsigned).
      destruct (check_exp _ now) as [verified|error] eqn:Hcheck; simpl.
      * right. by rewrite (check_exp_returns _ _ _ Hcheck).
      * by left.
Qed.

Lemma token_carries_id_only_witness :
  (∀ user user',
     user !! "id" = user' !! "id" →
     generateToken example_env 5000 user = generateToken example_env 5000 user')
  ∧ (∀ row, login_identity row !! "username" = row !! "username"
            ∧ login_identity row !! "id" = row !! "user_id")
  ∧ ∀ user, ∃ token claims,
      generateToken example_env 5000 user = inl token
      ∧ well_signed "s3cret" token claims
      ∧ (∀ k, is_Some (claims !! k) → k ∈ ["id"; "iat"; "exp"])
      ∧ claims !! "id" = user !! "id"
      ∧ claims !! "username" = None
      ∧ ∀ now e,
          headers (req e) !! "authorization" = Some ("Bearer " +:+ token) →
          req (authenticate example_env now e).2 = req e
          ∨ req (authenticate example_env now e).2
            = {| headers := headers (req e); user := Some claims |}.
Proof.
  apply (token_carries_id_only example_env "s3cret" 5000); reflexivity.
Defined.

Example login_token_drops_username :
  login_identity example_row !! "username" = Some (JStr "ann")
  ∧ generateToken example_env 5000 (login_identity example_row)
    = generateToken example_env 5000 {[ "id" := JNum 42 ]}.
Proof. by vm_compute. Qed.

(** * Further properties of [middleware/jwt.js] *)

Lemma check_exp_returns_live `{J : Jws} claims now verified :
  check_exp claims now = inl verified →
  claims !! "exp" = None
  ∨ ∃ exp, claims !! "exp" = Some (JNum exp) ∧ clockTimestamp now < exp.
Proof.
  unfold check_exp, returns, throws. intros Hc.
  destruct (claims !! "exp") as [[exp|s]|]; [|done|by left].
  right. exists exp. split; [done|].
  destruct (Z.geb_spec (clockTimestamp now) exp); [done|lia].
Qed.

(** X1. The guard is sound. When a run of [authenticate] calls [next], a
    non-empty secret is configured, the second piece of the authorization
    header is a token well signed under it, the token has no expiry or the
    clock is before it, and [req.user] is the payload of that token. *)
Theorem accepted_only_if_signed `{J : Jws}
    (env : gmap string string) (now : Z) (e : exchange) (made : list call) :
  calls (authenticate env now e).2 = calls e ++ made →
  Next ∈ made →
  ∃ key token claims,
    env !! "JWT_SECRET" = Some key ∧ Str.truthy key = true
    ∧ bearer_token (req e) = Some token
    ∧ well_signed key token claims
    ∧ (claims !! "exp" = None
       ∨ ∃ exp, claims !! "exp" = Some (JNum exp) ∧ clockTimestamp now < exp)
    ∧ req (authenticate env now e).2
      = {| headers := headers (req e); user := Some claims |}.
Proof.
  destruct (falsy (bearer_token (req e))) eqn:Hfalsy.
  - rewrite (authenticate_no_token env now e Hfalsy). simpl.
    intros <-%app_inv_head Hin. simpl in Hin.
    rewrite !elem_of_cons, elem_of_nil in Hin. by destruct Hin as [|[|]].
  - destruct (bearer_token (req e)) as [token|] eqn:Htok; [|done].
    simpl in Hfalsy. apply negb_false_iff in Hfalsy.
    rewrite (authenticate_token env now e token Htok Hfalsy).
    destruct (jwt_verify token (env !! "JWT_SECRET") now)
      as [verified|error] eqn:Hverify; simpl.
    + intros _ _.
      destruct (jwt_verify_returns _ _ _ _ Hverify)
        as (key & Hkey & Htruthy & Hsigned & Hcheck).
      exists key, token, verified. split_and!; [done..| |done].
      by eapply check_exp_returns_live.
    + intros <-%app_inv_head Hin. exfalso.
      destruct (caught error); simpl in Hin;
        rewrite !elem_of_cons, elem_of_nil in Hin;
        by destruct Hin as [|[|[|]]].
Qed.

Lemma accepted_only_if_signed_witness :
  ∃ key token claims,
    example_env !! "JWT_SECRET" = Some key ∧ Str.truthy key = true
    ∧ bearer_token (with_authorization (example_bearer 5000)) = Some token
    ∧ well_signed key token claims
    ∧ (claims !! "exp" = None
       ∨ ∃ exp, claims !! "exp" = Some (JNum exp) ∧ clockTimestamp 1000000 < exp)
    ∧ req (authenticate example_env 1000000
             (incoming (with_authorization (example_bearer 5000)))).2
      = {| headers := {[ "authorization" := example_bearer 5000 ]};
           user := Some claims |}.
Proof.
  apply (accepted_only_if_signed example_env 1000000
           (incoming (with_authorization (example_bearer 5000)))
           [Verify (example_token 5000); Next]).
  - vm_compute. reflexivity.
  - vm_compute. right. left.
Defined.

Lemma jwt_verify_no_secret `{J : Jws} token secret now :
  secret = None ∨ secret = Some "" →
  ∃ msg, jwt_verify token secret now = throws (JsonWebTokenError msg).
Proof.
  intros Hsecret. unfold jwt_verify.
  destruct (Str.split "." token) as [|h [|p [|g [|? ?]]]];
    try (by eexists).
  destruct (json_base64url h), (json_base64url p);
    try (by eexists).
  destruct Hsecret as [-> | ->]; by eexists.
Qed.

(** X2. Without a signing secret the gate is closed on both sides. When
    [process.env.JWT_SECRET] is unset or empty, [generateToken] throws for
    every identity and [authenticate] never calls [next]: it answers
    [NoToken] when no token is presented and [InvalidToken] for every
    presented token, and leaves the request as it was. *)
Theorem closed_without_secret `{J : Jws}
    (env : gmap string string) (now : Z) :
  env !! "JWT_SECRET" = None ∨ env !! "JWT_SECRET" = Some "" →
  (∀ user, generateToken env now user
           = inr (Error "Error" "secretOrPrivateKey must have a value"))
  ∧ ∀ e, req (authenticate env now e).2 = req e
         ∧ (calls (authenticate env now e).2 = calls e ++ surfaced NoToken
            ∨ ∃ token,
                bearer_token (req e) = Some token
                ∧ calls (authenticate env now e).2
                  = calls e ++ Verify token :: surfaced InvalidToken).
Proof.
  intros Hsecret. split.
  - intros user. unfold generateToken, jwt_sign.
    by destruct Hsecret as [-> | ->].
  - intros e. destruct (falsy (bearer_token (req e))) eqn:Hfalsy.
    + rewrite (authenticate_no_token env now e Hfalsy). simpl. auto.
    + destruct (bearer_token (req e)) as [token|] eqn:Htok; [|done].
      simpl in Hfalsy. apply negb_false_iff in Hfalsy.
      rewrite (authenticate_token env now e token Htok Hfalsy).
      destruct (jwt_verify_no_secret token (env !! "JWT_SECRET") now Hsecret)
        as [msg ->].
      simpl. split; [done|]. right. by exists token.
Qed.

Lemma closed_without_secret_witness :
  (∀ user, generateToken (J := Ideal.jws) ∅ 5000 user
           = inr (Error "Error" "secretOrPrivateKey must have a value"))
  ∧ ∀ e, req (authenticate ∅ 5000 e).2 = req e
         ∧ (calls (authenticate ∅ 5000 e).2 = calls e ++ surfaced NoToken
            ∨ ∃ token,
                bearer_token (req e) = Some token
                ∧ calls (authenticate ∅ 5000 e).2
                  = calls e ++ Verify token :: surfaced InvalidToken).
Proof.
  apply (closed_without_secret ∅ 5000). left. reflexivity.
Defined.

Lemma split_single sep s x : Str.split sep s = [x] → x = s.
Proof.
  revert x. induction s as [|c s IH]; simpl; intros x Hx; [congruence|].
  destruct (Ascii.eqb c sep).
  - injection Hx as _ Hx. by apply StrFacts.split_nonempty in Hx.
  - destruct (Str.split sep s) as [|piece pieces] eqn:Hs;
      [by apply StrFacts.split_nonempty in Hs|].
    injection Hx as <- ->. by rewrite (IH piece).
Qed.

Lemma truthy_app_dot a b : Str.truthy (a +:+ "." +:+ b) = true.
Proof. by destruct a. Qed.

(** The token [generateToken] returns, segment by segment. *)
Lemma generateToken_segments `{J : Jws} env now user key :
  env !! "JWT_SECRET" = Some key → Str.truthy key = true →
  let header := base64url_json jose_header in
  let payload := base64url_json (issued_claims now user) in
  generateToken env now user
  = inl (signing_input header payload +:+ "."
         +:+ hmac key (signing_input header payload)).
Proof.
  intros Hkey Htruthy. unfold generateToken, jwt_sign.
  by rewrite Hkey, Htruthy.
Qed.

(** X3. The scheme is not enforced and what follows the token is ignored.
    A token issued by [generateToken] is accepted, within its thirty
    minutes, under any first piece of the authorization header, the empty
    one included, and whatever comes after a space behind the token. *)
Theorem issued_token_any_scheme `{J : Jws} {L : JwsLaws J}
    (env : gmap string string) (key : string) (user : jobject)
    (issued now : Z) (scheme rest : string) :
  env !! "JWT_SECRET" = Some key → Str.truthy key = true →
  clockTimestamp now < clockTimestamp issued + thirty_minutes →
  Str.lacks " " scheme = true →
  ∃ token,
    generateToken env issued user = inl token
    ∧ ∀ e,
        headers (req e) !! "authorization" = Some (scheme +:+ " " +:+ token)
        ∨ headers (req e) !! "authorization"
          = Some (scheme +:+ " " +:+ token +:+ " " +:+ rest) →
        authenticate env now e
        = (tt, {| req := {| headers := headers (req e);
                            user := Some (issued_claims issued user) |};
                  calls := calls e ++ [Verify token; Next] |}).
Proof.
  intros Hkey Htruthy Hnow Hscheme.
  destruct (generateToken_issues env issued user key Hkey Htruthy)
    as (token & Hgen & Hsigned & Hspace).
  exists token. split; [done|]. intros e Hh.
  assert (bearer_token (req e) = Some token) as Htok.
  { destruct Hh as [Hh|Hh];
      [by apply (bearer_token_scheme (req e) scheme token)
      |by apply (bearer_token_scheme_rest (req e) scheme token rest)]. }
  rewrite (authenticate_token env now e token Htok)
    by by eapply well_signed_truthy.
  rewrite Hkey, (jwt_verify_well_signed key token _ now Htruthy Hsigned).
  by rewrite (check_exp_live _ (clockTimestamp issued + thirty_minutes))
    by (by unfold issued_claims; simplify_map_eq).
Qed.

Lemma issued_token_any_scheme_witness :
  ∃ token,
    generateToken example_env 5000 example_user = inl token
    ∧ ∀ e,
        headers (req e) !! "authorization" = Some ("Basic" +:+ " " +:+ token)
        ∨ headers (req e) !! "authorization"
          = Some ("Basic" +:+ " " +:+ token +:+ " " +:+ "and more") →
        authenticate example_env 1000000 e
        = (tt, {| req := {| headers := headers (req e);
                            user := Some (issued_claims 5000 example_user) |};
                  calls := calls e ++ [Verify token; Next] |}).
Proof.
  apply (issued_token_any_scheme example_env "s3cret" example_user
           5000 1000000 "Basic" "and more"); vm_compute; reflexivity.
Defined.

(** X4. [generateToken] does not ask for an [id]. For an identity without
    one it still returns a token; its claims are the issuance time and the
    expiry alone, and the guard accepts it like any other, attaching a
    claim that names no subject. *)
Theorem token_without_id `{J : Jws} {L : JwsLaws J}
    (env : gmap string string) (key : string) (user : jobject)
    (issued now : Z) :
  env !! "JWT_SECRET" = Some key → Str.truthy key = true →
  user !! "id" = None →
  clockTimestamp now < clockTimestamp issued + thirty_minutes →
  ∃ token (claims : jobject),
    generateToken env issued user = inl token
    ∧ claims = {[ "iat" := JNum (clockTimestamp issued);
                  "exp" := JNum (clockTimestamp issued + 30 * 60) ]}
    ∧ claims !! "id" = None
    ∧ ∀ e, headers (req e) !! "authorization" = Some ("Bearer " +:+ token) →
        authenticate env now e
        = (tt, {| req := {| headers := headers (req e); user := Some claims |};
                  calls := calls e ++ [Verify token; Next] |}).
Proof.
  intros Hkey Htruthy Hid Hnow.
  destruct (generateToken_issues env issued user key Hkey Htruthy)
    as (token & Hgen & Hsigned & Hspace).
  exists token, (issued_claims issued user).
  assert (issued_claims issued user
          = {[ "iat" := JNum (clockTimestamp issued);
               "exp" := JNum (clockTimestamp issued + 30 * 60) ]}) as Hclaims.
  { unfold issued_claims. rewrite Hid. apply map_eq. intros k.
    destruct (decide (k = "exp")) as [->|]; [by simplify_map_eq|].
    destruct (decide (k = "iat")) as [->|]; by simplify_map_eq. }
  split_and!; [done | done | by rewrite Hclaims | ].
  intros e Hh.
  assert (bearer_token (req e) = Some token) as Htok
    by (by apply (bearer_token_scheme (req e) "Bearer" token)).
  rewrite (authenticate_token env now e token Htok)
    by by eapply well_signed_truthy.
  rewrite Hkey, (jwt_verify_well_signed key token _ now Htruthy Hsigned).
  by rewrite (check_exp_live _ (clockTimestamp issued + thirty_minutes))
    by (by unfold issued_claims; simplify_map_eq).
Qed.

Lemma token_without_id_witness :
  ∃ token (claims : jobject),
    generateToken example_env 5000 {[ "username" := JStr "ann" ]} = inl token
    ∧ claims = {[ "iat" := JNum (clockTimestamp 5000);
                  "exp" := JNum (clockTimestamp 5000 + 30 * 60) ]}
    ∧ claims !! "id" = None
    ∧ ∀ e, headers (req e) !! "authorization" = Some ("Bearer " +:+ token) →
        authenticate example_env 1000000 e
        = (tt, {| req := {| headers := headers (req e); user := Some claims |};
                  calls := calls e ++ [Verify token; Next] |}).
Proof.
  apply (token_without_id example_env "s3cret" {[ "username" := JStr "ann" ]}
           5000 1000000); vm_compute; reflexivity.
Defined.

(** X5. A changed signature is caught. Take a token issued by
    [generateToken] and put any other text without a space in the place of
    its signature segment: the guard answers [InvalidToken], at any clock,
    and does not call [next]. *)
Theorem altered_signature_rejected `{J : Jws} {L : JwsLaws J}
    (env : gmap string string) (key : string) (user : jobject)
    (issued : Z) :
  env !! "JWT_SECRET" = Some key → Str.truthy key = true →
  ∃ header payload signature,
    generateToken env issued user
    = inl (signing_input header payload +:+ "." +:+ signature)
    ∧ ∀ signature' now e,
        signature' ≠ signature → Str.lacks " " signature' = true →
        headers (req e) !! "authorization"
        = Some ("Bearer " +:+ signing_input header payload +:+ "." +:+ signature') →
        authenticate env now e
        = (tt, {| req := req e;
                  calls := calls e
                           ++ Verify (signing_input header payload +:+ "."
                                      +:+ signature')
                           :: surfaced InvalidToken |}).
Proof.
  intros Hkey Htruthy.
  set (header := base64url_json jose_header).
  set (payload := base64url_json (issued_claims issued user)).
  exists header, payload, (hmac key (signing_input header payload)).
  split; [by apply generateToken_segments|].
  intros signature' now e Hne Hspace Hh.
  set (token := signing_input header payload +:+ "." +:+ signature').
  pose proof (base64url_json_alphabet jose_header) as Hha.
  pose proof (base64url_json_alphabet (issued_claims issued user)) as Hpa.
  fold header in Hha. fold payload in Hpa.
  assert (Str.lacks " " token = true) as Htspace.
  { unfold token, signing_input. rewrite !StrFacts.lacks_app.
    by rewrite (StrFacts.base64url_lacks_space header Hha),
      (StrFacts.base64url_lacks_space payload Hpa), Hspace. }
  assert (bearer_token (req e) = Some token) as Htok
    by (by apply (bearer_token_scheme (req e) "Bearer" token)).
  assert (Str.truthy token = true) as Httruthy.
  { unfold token, signing_input. rewrite StrFacts.append_assoc.
    apply truthy_app_dot. }
  rewrite (authenticate_token env now e token Htok Httruthy).
  assert (Str.split "." token = header :: payload :: Str.split "." signature')
    as Hsplit.
  { unfold token, signing_input. rewrite StrFacts.append_assoc.
    change (header +:+ ("." +:+ payload) +:+ "." +:+ signature')
      with (header +:+ String "." (payload +:+ String "." signature')).
    by rewrite !StrFacts.split_app by by apply StrFacts.base64url_lacks_dot. }
  assert (∃ msg, jwt_verify token (env !! "JWT_SECRET") now
                 = throws (JsonWebTokenError msg)) as [msg ->]; [|done].
  unfold jwt_verify. rewrite Hsplit.
  destruct (Str.split "." signature') as [|g [|g' gs]] eqn:Hg;
    [by eexists| |by eexists].
  apply split_single in Hg as ->.
  unfold header at 1, payload at 1. rewrite !json_base64url_json.
  rewrite Hkey, Htruthy.
  destruct (String.eqb_spec signature' (hmac key (signing_input header payload)));
    [done|by eexists].
Qed.

Lemma altered_signature_rejected_witness :
  ∃ header payload signature,
    generateToken example_env 5000 example_user
    = inl (signing_input header payload +:+ "." +:+ signature)
    ∧ ∀ signature' now e,
        signature' ≠ signature → Str.lacks " " signature' = true →
        headers (req e) !! "authorization"
        = Some ("Bearer " +:+ signing_input header payload +:+ "." +:+ signature') →
        authenticate example_env now e
        = (tt, {| req := req e;
                  calls := calls e
                           ++ Verify (signing_input header payload +:+ "."
                                      +:+ signature')
                           :: surfaced InvalidToken |}).
Proof.
  apply (altered_signature_rejected example_env "s3cret" example_user 5000);
    reflexivity.
Defined.

(** * Properties of the routes *)

Module RoutesFacts.
Import Routes.

(** Unfold the monad and the primitive calls of a route handler. *)
Ltac run_route :=
  unfold run, login, create_driver, update_driver, list_drivers, get_driver,
    delete_driver, by_id, search, pool_query, send, console_log, reject, emit,
    mbind, mret, route_bind, route_ret;
  simpl.

Section Facts.
Context `{J : Jws}.
Variable env : gmap string string.
Variable pool : string → list sqlvalue → result (list row).
Variable validationResult : list chain → json → list json.
Variable route_matches : string → string → http → option (gmap string string).

(** The runs of the handlers, case by case. *)
Lemma login_run now r :
  run (login env pool validationResult now r)
  = match validationResult login_checks (body r) with
    | _ :: _ =>
        [Reply 400 (ValidationErrors (validationResult login_checks (body r)))]
    | [] =>
        if is_null (body r) then [Reject (cannot_destructure "username")] else
        let values := [member "username" (body r); member "password" (body r)] in
        [Query select_user values;
         match pool select_user values with
         | inl (user :: _) =>
             match generateToken env now (login_identity user) with
             | inl token => Reply 200 (Session user token)
             | inr error => Reply 500 (Said (error_body (message error)))
             end
         | inl [] => Reply 401 (Said (message_body "Invalid credentials"))
         | inr error => Reply 500 (Said (error_body (message error)))
         end]
    end.
Proof.
  run_route. destruct (validationResult login_checks (body r)); [|done].
  destruct (is_null (body r)); [done|].
  simpl. destruct (pool _ _) as [[|user rows]|error]; simpl; [done| |done].
  by destruct (generateToken _ _ _).
Qed.

Lemma by_id_run text params :
  run (by_id pool text params)
  = let values := [JsString <$> params !! "id"] in
    [Query text values;
     match pool text values with
     | inl [] => Reply 404 (Said (message_body "Driver not found"))
     | inl (r :: _) => Reply 200 (FirstRow (Some r))
     | inr error => Reply 500 (Said (error_body (message error)))
     end].
Proof. run_route. by destruct (pool _ _) as [[|? ?]|?]. Qed.

Lemma update_run params r :
  run (update_driver pool validationResult params r)
  = match validationResult update_checks (body r) with
    | _ :: _ =>
        [Reply 400 (ValidationErrors (validationResult update_checks (body r)))]
    | [] =>
        if is_null (body r) then [Reject (cannot_destructure "driverName")] else
        let location := member "location" (body r) in
        let values :=
          [member "driverName" (body r); member "fleetId" (body r);
           member "licenseID" (body r); location ≫= member "City";
           location ≫= member "Pincode"; member "vehicleTypes" (body r);
           JsString <$> params !! "id"] in
        [Query update_driver_text values;
         match pool update_driver_text values with
         | inl [] => Reply 404 (Said (message_body "Driver not found"))
         | inl (r :: _) => Reply 200 (FirstRow (Some r))
         | inr error => Reply 500 (Said (error_body (message error)))
         end]
    end.
Proof.
  run_route. destruct (validationResult update_checks (body r)); [|done].
  destruct (is_null (body r)); [done|].
  simpl. by destruct (pool _ _) as [[|? ?]|?].
Qed.

Lemma create_run r :
  run (create_driver pool validationResult r)
  = match validationResult create_checks (body r) with
    | _ :: _ =>
        [Reply 400 (ValidationErrors (validationResult create_checks (body r)))]
    | [] =>
        if is_null (body r) then [Reject (cannot_destructure "driverName")] else
        match member "location" (body r) with
        | None =>
            [Reject (Error "TypeError"
                       "Cannot read properties of undefined (reading 'City')")]
        | Some JsNull =>
            [Reject (Error "TypeError"
                       "Cannot read properties of null (reading 'City')")]
        | Some location =>
            let values :=
              [member "driverName" (body r); member "fleetId" (body r);
               member "licenseID" (body r); member "City" location;
               member "Pincode" location; member "vehicleTypes" (body r)] in
            [Query insert_driver values;
             match pool insert_driver values with
             | inl rows => Reply 201 (FirstRow (rows !! 0%nat))
             | inr error => Reply 500 (Said (error_body (message error)))
             end]
        end
    end.
Proof.
  run_route. destruct (validationResult create_checks (body r)); [|done].
  destruct (is_null (body r)); [done|].
  destruct (member "location" (body r)) as [[]|]; simpl; try done;
    by destruct (pool _ _).
Qed.

Lemma list_run :
  run (list_drivers pool)
  = [Query select_drivers [];
     match pool select_drivers [] with
     | inl rows => Reply 200 (Rows rows)
     | inr error => Reply 500 (Said (error_body (message error)))
     end].
Proof. run_route. by destruct (pool _ _). Qed.

Lemma search_run r :
  run (search pool r)
  = let name := default "" (query r !! "name") in
    let id := default "" (query r !! "id") in
    let issue text values :=
      [Console "Query:" (ShownText text);
       Console "Values:" (ShownValues values);
       Query text values;
       match pool text values with
       | inl rows => Reply 200 (Rows rows)
       | inr error => Reply 500 (Said (error_body (message error)))
       end] in
    if Str.truthy id then
      match parseInt id with
      | None => [Reply 400 (Said (error_body "ID must be a valid number."))]
      | Some n =>
          if Str.truthy name then
            issue "SELECT * FROM drivers WHERE driver_id = $1 OR driver_name ILIKE $2 ORDER BY driver_name"
              [Some (JsNumber n); Some (JsString ("%" +:+ name +:+ "%"))]
          else
            issue "SELECT * FROM drivers WHERE driver_id = $1 ORDER BY driver_name"
              [Some (JsNumber n)]
      end
    else if Str.truthy name then
      issue "SELECT * FROM drivers WHERE driver_name ILIKE $2 ORDER BY driver_name"
        [Some (JsString ("%" +:+ name +:+ "%"))]
    else
      [Reply 400
         (Said (error_body
                  "At least one query parameter (name or id) is required."))].
Proof.
  run_route. unfold search_id, search_name.
  destruct (Str.truthy (default "" (query r !! "id")));
    [destruct (parseInt _); [|done]|];
    destruct (Str.truthy (default "" (query r !! "name"))); simpl; try done;
    match goal with |- context [pool ?t ?v] =>
      let t' := eval vm_compute in t in
      change t with t'; by destruct (pool t' v) end.
Qed.

(** A run of [authenticate] either does not call [next], leaves the request
    as it was and answers with one of the three rejections, or calls
    [next] for a token that is well signed and not expired. *)
Lemma called_next_app e e' made :
  calls e' = calls e ++ made → called_next e e' = bool_decide (Next ∈ made).
Proof. intros He. unfold called_next. by rewrite He, drop_app_length. Qed.

Lemma authenticate_outcome now e :
  let e' := (authenticate env now e).2 in
  (called_next e e' = false ∧ req e' = req e
   ∧ ∃ k, calls e' = calls e ++ surfaced k
          ∨ ∃ token, calls e' = calls e ++ Verify token :: surfaced k)
  ∨ (called_next e e' = true
     ∧ ∃ key token claims,
         env !! "JWT_SECRET" = Some key ∧ Str.truthy key = true
         ∧ bearer_token (req e) = Some token
         ∧ well_signed key token claims
         ∧ (claims !! "exp" = None
            ∨ ∃ exp, claims !! "exp" = Some (JNum exp)
                     ∧ clockTimestamp now < exp)
         ∧ e' = {| req := {| headers := headers (req e); user := Some claims |};
                   calls := calls e ++ [Verify token; Next] |}).
Proof.
  simpl. destruct (falsy (bearer_token (req e))) eqn:Hfalsy.
  - rewrite (authenticate_no_token env now e Hfalsy). simpl. left.
    split_and!; [by erewrite called_next_app by done|done|].
    exists NoToken. by left.
  - destruct (bearer_token (req e)) as [token|] eqn:Htok; [|done].
    simpl in Hfalsy. apply negb_false_iff in Hfalsy.
    rewrite (authenticate_token env now e token Htok Hfalsy).
    destruct (jwt_verify token (env !! "JWT_SECRET") now)
      as [verified|error] eqn:Hverify; simpl.
    + right. split; [by erewrite called_next_app by done|].
      destruct (jwt_verify_returns _ _ _ _ Hverify)
        as (key & Hkey & Htruthy & Hsigned & Hcheck).
      exists key, token, verified. split_and!; [done..| |done].
      by eapply check_exp_returns_live.
    + left. split_and!; [|done|].
      * erewrite called_next_app by done. by destruct (caught error).
      * exists (caught error). right. by exists token.
Qed.

(** Routes leave the guard's exchange alone, and the first of them that
    takes the request handles it. *)
Lemma dispatch_routes layers r e :
  Forall (λ l, ∃ verb pattern h, l = Route verb pattern h) layers →
  let s := dispatch route_matches layers r e in
  after s = e
  ∧ ((handled s = None ∧ effects s = [])
     ∨ ∃ verb pattern h params,
         Route verb pattern h ∈ layers
         ∧ route_matches verb pattern r = Some params
         ∧ handled s = Some (verb, pattern)
         ∧ effects s = run (h params r)).
Proof.
  induction 1 as [|l layers (verb & pattern & h & ->) _ IH]; simpl.
  - split; [done|]. by left.
  - destruct (route_matches verb pattern r) as [params|] eqn:Hm; simpl.
    + split; [done|]. right. exists verb, pattern, h, params.
      split_and!; [by left|done..].
    + destruct IH as [Hafter IH]. split; [done|].
      destruct IH as [?|(v & p & h' & ps & Hin & ? & ? & ?)]; [by left|].
      right. exists v, p, h', ps. split_and!; [by right|done..].
Qed.

Lemma guarded_routes_are_routes :
  Forall (λ l, ∃ verb pattern h, l = Route verb pattern h)
    (guarded_routes pool validationResult).
Proof. repeat constructor; by do 3 eexists. Qed.

Lemma serve_eq now r :
  serve env pool validationResult route_matches now r
  = match route_matches "POST" "/login" r with
    | Some _ =>
        {| after := incoming (auth r); handled := Some ("POST", "/login");
           effects := run (login env pool validationResult now r) |}
    | None =>
        let e' := (authenticate env now (incoming (auth r))).2 in
        if called_next (incoming (auth r)) e'
        then dispatch route_matches (guarded_routes pool validationResult) r e'
        else {| after := e'; handled := None; effects := [] |}
    end.
Proof. done. Qed.

End Facts.
End RoutesFacts.

Section RouteProperties.
Import Routes RoutesFacts.
Context `{J : Jws}.
Variable env : gmap string string.
Variable pool : string → list sqlvalue → result (list row).
Variable validationResult : list chain → json → list json.
Variable route_matches : string → string → http → option (gmap string string).

(** X6. A session is given for a matching row only. When the login
    handler answers with [{ user, token }], the status is 200, the body
    passed validation, the statement run with the submitted username and
    password as its two values returned at least one row, [user] is the
    first of them, whole, and [token] is what [generateToken] returns for
    the [user_id] of that row. *)
Theorem login_session_sound (now : Z) (r : http) (status : Z)
    (user : row) (token : string) :
  Reply status (Session user token)
    ∈ run (login env pool validationResult now r) →
  status = 200
  ∧ validationResult login_checks (body r) = []
  ∧ (∃ others,
       pool select_user [member "username" (body r); member "password" (body r)]
       = inl (user :: others))
  ∧ generateToken env now (login_identity user) = inl token
  ∧ generateToken env now (login_identity user)
    = generateToken env now
        (match user !! "user_id" with Some id => {[ "id" := id ]} | None => ∅ end).
Proof.
  rewrite login_run. intros Hin.
  destruct (validationResult login_checks (body r)) as [|v vs].
  - destruct (is_null (body r));
      [rewrite elem_of_cons, elem_of_nil in Hin; by destruct Hin as [?|[]]|].
    simpl in Hin. rewrite !elem_of_cons, elem_of_nil in Hin.
    destruct Hin as [?|[Hin|[]]]; [done|].
    destruct (pool _ _) as [[|first others]|?]; [done| |done].
    destruct (generateToken env now (login_identity first)) as [t|?] eqn:Hgen;
      [|done].
    injection Hin as -> -> ->. split_and!; [done..|by eexists|done|].
    unfold generateToken, login_identity.
    by destruct (first !! "user_id"), (first !! "username"); simplify_map_eq.
  - rewrite elem_of_cons, elem_of_nil in Hin. by destruct Hin as [?|[]].
Qed.

(** X7. The token of a login opens the guarded routes. A login request
    that passes validation and finds a row needs no authorization header:
    the guard is not run, the one statement is the fixed select with the
    submitted username and password as values, and the answer is 200 with
    the row and a token. That token, sent as [Bearer <token>] with any
    request that is not a login, within thirty minutes, passes the guard,
    which attaches a claim whose [id] is the [user_id] of the row. *)
Theorem login_opens_guard {L : JwsLaws J}
    (key : string) (now now' : Z) (r r' : http) (params : gmap string string)
    (user : row) (others : list row) (id : jvalue) :
  env !! "JWT_SECRET" = Some key → Str.truthy key = true →
  route_matches "POST" "/login" r = Some params →
  validationResult login_checks (body r) = [] → is_null (body r) = false →
  pool select_user [member "username" (body r); member "password" (body r)]
  = inl (user :: others) →
  user !! "user_id" = Some id →
  route_matches "POST" "/login" r' = None →
  clockTimestamp now' < clockTimestamp now + thirty_minutes →
  ∃ token claims,
    serve env pool validationResult route_matches now r
    = {| after := incoming (auth r);
         handled := Some ("POST", "/login");
         effects :=
           [Query select_user
              [member "username" (body r); member "password" (body r)];
            Reply 200 (Session user token)] |}
    ∧ claims !! "id" = Some id
    ∧ (headers (auth r') !! "authorization" = Some ("Bearer " +:+ token) →
       after (serve env pool validationResult route_matches now' r')
       = {| req := {| headers := headers (auth r'); user := Some claims |};
            calls := [Verify token; Next] |}).
Proof.
  intros Hkey Htruthy Hlogin Hvalid Hbody Hrows Hid Hother Hnow.
  assert (login_identity user !! "id" = Some id) as Hid'.
  { unfold login_identity. rewrite Hid.
    by destruct (user !! "username"); simplify_map_eq. }
  destruct (generateToken_issues env now (login_identity user) key Hkey Htruthy)
    as (token & Hgen & Hsigned & Hspace).
  exists token, (issued_claims now (login_identity user)). split_and!.
  - rewrite serve_eq, Hlogin. f_equal.
    rewrite login_run, Hvalid, Hbody. cbv zeta. by rewrite Hrows, Hgen.
  - unfold issued_claims. rewrite Hid'. by simplify_map_eq.
  - intros Hh. rewrite serve_eq, Hother. cbv zeta.
    assert (bearer_token (auth r') = Some token) as Htok
      by (by apply (bearer_token_scheme (auth r') "Bearer" token)).
    assert ((authenticate env now' (incoming (auth r'))).2
            = {| req := {| headers := headers (auth r');
                           user := Some (issued_claims now (login_identity user)) |};
                 calls := [Verify token; Next] |}) as He'.
    { rewrite (authenticate_token env now' (incoming (auth r')) token Htok)
        by by eapply well_signed_truthy.
      rewrite Hkey, (jwt_verify_well_signed key token _ now' Htruthy Hsigned).
      by rewrite (check_exp_live _ (clockTimestamp now + thirty_minutes))
        by (by unfold issued_claims; simplify_map_eq). }
    rewrite He'.
    rewrite (called_next_app _ _ [Verify token; Next]) by done.
    replace (bool_decide (Next ∈ [Verify token; Next])) with true
      by (symmetry; apply bool_decide_eq_true; rewrite !elem_of_cons; auto).
    apply dispatch_routes, guarded_routes_are_routes.
Qed.

(** X8. Without a signing secret nobody can log in. When
    [process.env.JWT_SECRET] is unset or empty, a login that passes
    validation and finds its row still runs the statement, and then
    answers 500 with the message of the signing error; no token is sent. *)
Theorem login_without_secret (now : Z) (r : http) (user : row)
    (others : list row) :
  env !! "JWT_SECRET" = None ∨ env !! "JWT_SECRET" = Some "" →
  validationResult login_checks (body r) = [] → is_null (body r) = false →
  pool select_user [member "username" (body r); member "password" (body r)]
  = inl (user :: others) →
  run (login env pool validationResult now r)
  = [Query select_user [member "username" (body r); member "password" (body r)];
     Reply 500 (Said {[ "error" := JStr "secretOrPrivateKey must have a value" ]})].
Proof.
  intros Hsecret Hvalid Hbody Hrows. rewrite login_run, Hvalid, Hbody. cbv zeta.
  rewrite Hrows.
  unfold generateToken, jwt_sign. by destruct Hsecret as [-> | ->].
Qed.

(** X9. Validation comes first. On the login, create and update routes a
    body that leaves validation errors is answered with 400 and those
    errors, and nothing else happens: no statement reaches the storage
    layer. *)
Theorem invalid_body_not_queried (now : Z) (params : gmap string string)
    (r : http) (checks : list chain) (h : route unit) :
  (checks, h) ∈ [ (login_checks, login env pool validationResult now r);
                  (create_checks, create_driver pool validationResult r);
                  (update_checks,
                   update_driver pool validationResult params r) ] →
  validationResult checks (body r) ≠ [] →
  run h = [Reply 400 (ValidationErrors (validationResult checks (body r)))].
Proof.
  rewrite !elem_of_cons, elem_of_nil.
  intros [[= -> ->]|[[= -> ->]|[[= -> ->]|[]]]] Herrors.
  - rewrite login_run. by destruct (validationResult _ _).
  - rewrite create_run. by destruct (validationResult _ _).
  - rewrite update_run. by destruct (validationResult _ _).
Qed.

(** The handlers behind the guard, with their runs. *)
Lemma guarded_handler_cases (verb pattern : string)
    (h : gmap string string → http → route unit)
    (params : gmap string string) (r : http) :
  Route verb pattern h ∈ guarded_routes pool validationResult →
  (verb, pattern) ∈ [("POST", "/"); ("POST", "/:id"); ("GET", "/");
                     ("GET", "/:id"); ("DELETE", "/:id"); ("GET", "/search")]
  ∧ (h params r = create_driver pool validationResult r
     ∨ h params r = update_driver pool validationResult params r
     ∨ h params r = list_drivers pool
     ∨ h params r = by_id pool select_driver params
     ∨ h params r = by_id pool delete_driver_text params
     ∨ h params r = search pool r).
Proof.
  unfold guarded_routes. rewrite !elem_of_cons, elem_of_nil.
  intros [H|[H|[H|[H|[H|[H|[]]]]]]]; injection H as -> -> ->;
    (split; auto 10).
Qed.

(** What the handlers send to the storage layer, and the shape of their
    runs. *)
Lemma handler_runs (now : Z) (params : gmap string string) (r : http)
    (h : route unit) :
  h = login env pool validationResult now r
  ∨ h = create_driver pool validationResult r
  ∨ h = update_driver pool validationResult params r
  ∨ h = list_drivers pool
  ∨ h = by_id pool select_driver params
  ∨ h = by_id pool delete_driver_text params
  ∨ h = search pool r →
  one_answer (run h) = true
  ∧ ∀ text values, Query text values ∈ run h → text ∈ statements.
Proof.
  assert (∀ fs, (∀ text values, Query text values ∈ fs →
                 text ∈ statements) ↔
                Forall (λ f, match f with
                             | Query text _ => text ∈ statements
                             | _ => True
                             end) fs) as Hall.
  { intros fs. rewrite list.Forall_forall. split.
    - intros Hq [text values| | |] Hin; [apply (Hq _ _ Hin)|done..].
    - intros Hf text values Hin. apply (Hf _ Hin). }
  assert (∀ text, text ∈ statements ↔
                  bool_decide (text ∈ statements) = true) as Hdec
    by (intros; by rewrite bool_decide_eq_true).
  intros [->|[->|[->|[->|[->|[->| ->]]]]]]; rewrite Hall.
  - rewrite login_run. destruct (validationResult _ _); [|by repeat constructor].
    destruct (is_null (body r)); [by repeat constructor|].
    cbv zeta. destruct (pool _ _) as [[|u us]|?];
      [| destruct (generateToken _ _ _) |];
      (split; [done|]); repeat constructor; by apply Hdec.
  - rewrite create_run. destruct (validationResult _ _); [|by repeat constructor].
    destruct (is_null (body r)); [by repeat constructor|].
    destruct (member "location" (body r)) as [[]|]; cbv zeta;
      try destruct (pool _ _);
      (split; [done|]); repeat constructor; by apply Hdec.
  - rewrite update_run. destruct (validationResult _ _); [|by repeat constructor].
    destruct (is_null (body r)); [by repeat constructor|].
    cbv zeta. destruct (pool _ _) as [[|u us]|?];
      (split; [done|]); repeat constructor; by apply Hdec.
  - rewrite list_run. destruct (pool _ _);
      (split; [done|]); repeat constructor; by apply Hdec.
  - rewrite by_id_run. cbv zeta. destruct (pool _ _) as [[|u us]|?];
      (split; [done|]); repeat constructor; by apply Hdec.
  - rewrite by_id_run. cbv zeta. destruct (pool _ _) as [[|u us]|?];
      (split; [done|]); repeat constructor; by apply Hdec.
  - rewrite search_run. cbv zeta.
    destruct (Str.truthy (default "" (query r !! "id")));
      [destruct (parseInt _)|];
      destruct (Str.truthy (default "" (query r !! "name")));
      try destruct (pool _ _);
      (split; [done|]); repeat constructor; by apply Hdec.
Qed.

(** What became of a request, in the three ways it can go. *)
Lemma serve_cases (now : Z) (r : http) :
  let s := serve env pool validationResult route_matches now r in
  let e' := (authenticate env now (incoming (auth r))).2 in
  (is_Some (route_matches "POST" "/login" r)
   ∧ s = {| after := incoming (auth r); handled := Some ("POST", "/login");
            effects := run (login env pool validationResult now r) |})
  ∨ (route_matches "POST" "/login" r = None
     ∧ called_next (incoming (auth r)) e' = false
     ∧ s = {| after := e'; handled := None; effects := [] |})
  ∨ (route_matches "POST" "/login" r = None
     ∧ called_next (incoming (auth r)) e' = true
     ∧ s = dispatch route_matches (guarded_routes pool validationResult) r e').
Proof.
  simpl. rewrite serve_eq.
  destruct (route_matches "POST" "/login" r); [by left; split; [eexists|]|].
  cbv zeta. destruct (called_next _ _); [right; right|right; left]; done.
Qed.

(** X10. Statements are fixed texts. Whatever the request, every statement
    a handler hands to the storage layer is one of nine constant texts;
    what the client sent, credentials, path parameters, body members and
    search terms, travels in the values only and is never made part of a
    statement. *)
Theorem statements_are_fixed (now : Z) (r : http) (text : string)
    (values : list sqlvalue) :
  Query text values
    ∈ effects (serve env pool validationResult route_matches now r) →
  text ∈ statements.
Proof.
  destruct (serve_cases now r) as [[_ ->]|[(_ & _ & ->)|(_ & _ & ->)]].
  - simpl. by apply (handler_runs now ∅ r); left.
  - simpl. by intros ?%elem_of_nil.
  - destruct (dispatch_routes route_matches _ r
                (authenticate env now (incoming (auth r))).2
                (guarded_routes_are_routes pool validationResult))
      as [_ [[_ ->]|(verb & pattern & h & params & Hin & _ & _ & ->)]];
      [by intros ?%elem_of_nil|].
    apply (handler_runs now params r). right.
    by destruct (guarded_handler_cases verb pattern h params r Hin) as [_ ?].
Qed.

(** X11. One answer for a request. When a route handles the request, its
    handler ends with exactly one final effect, a response or an uncaught
    exception, after at most one statement, and the guard has sent
    nothing. When no route handles it, no handler effect happens at all:
    the guard has answered with one of its rejections, or it has called
    [next] and no route took the request. *)
Theorem one_answer_per_request (now : Z) (r : http) :
  let s := serve env pool validationResult route_matches now r in
  match handled s with
  | Some _ =>
      one_answer (effects s) = true ∧ ∀ b, Json b ∉ calls (after s)
  | None =>
      effects s = []
      ∧ ((∃ k, calls (after s) = surfaced k
               ∨ ∃ token, calls (after s) = Verify token :: surfaced k)
         ∨ ∃ token, calls (after s) = [Verify token; Next])
  end.
Proof.
  cbv zeta.
  assert (∀ token b, Json b ∉ [Verify token; Next]) as Hsilent.
  { intros token b. rewrite !not_elem_of_cons.
    split_and!; [done..|apply not_elem_of_nil]. }
  destruct (serve_cases now r) as [[_ ->]|[(_ & Hnext & ->)|(_ & Hnext & ->)]].
  - simpl. split; [by apply (handler_runs now ∅ r); left|].
    intros b. apply not_elem_of_nil.
  - simpl. split; [done|]. left.
    destruct (authenticate_outcome env now (incoming (auth r)))
      as [(_ & _ & k & Hk)|[Hyes _]]; [by exists k|congruence].
  - destruct (authenticate_outcome env now (incoming (auth r)))
      as [[Hno _]|(_ & key & token & claims & _ & _ & _ & _ & _ & He')];
      [congruence|].
    destruct (dispatch_routes route_matches _ r
                (authenticate env now (incoming (auth r))).2
                (guarded_routes_are_routes pool validationResult))
      as [Hafter [[-> ->]|(verb & pattern & h & params & Hin & _ & -> & ->)]].
    + split; [done|]. right. exists token. by rewrite Hafter, He'.
    + rewrite Hafter, He'. split; [|apply Hsilent].
      apply (handler_runs now params r). right.
      by destruct (guarded_handler_cases verb pattern h params r Hin) as [_ ?].
Qed.

(** X12. Only the login route is open. A route other than [POST /login]
    handles a request only after the guard has called [next] for it: a
    non-empty secret is configured, the authorization header carries a
    token well signed under it and not expired, and its payload is in
    [req.user]. When the login route handles the request the guard has not
    been run at all. *)
Theorem handlers_behind_guard (now : Z) (r : http) (verb pattern : string) :
  handled (serve env pool validationResult route_matches now r)
  = Some (verb, pattern) →
  ((verb, pattern) = ("POST", "/login")
   ∧ after (serve env pool validationResult route_matches now r)
     = incoming (auth r))
  ∨ ((verb, pattern) ∈ [("POST", "/"); ("POST", "/:id"); ("GET", "/");
                        ("GET", "/:id"); ("DELETE", "/:id"); ("GET", "/search")]
     ∧ ∃ key token claims,
         env !! "JWT_SECRET" = Some key ∧ Str.truthy key = true
         ∧ bearer_token (auth r) = Some token
         ∧ well_signed key token claims
         ∧ (claims !! "exp" = None
            ∨ ∃ exp, claims !! "exp" = Some (JNum exp)
                     ∧ clockTimestamp now < exp)
         ∧ after (serve env pool validationResult route_matches now r)
           = {| req := {| headers := headers (auth r); user := Some claims |};
                calls := [Verify token; Next] |}).
Proof.
  destruct (serve_cases now r) as [[_ ->]|[(_ & Hnext & ->)|(_ & Hnext & ->)]].
  - simpl. intros [= <- <-]. by left.
  - done.
  - destruct (authenticate_outcome env now (incoming (auth r)))
      as [[Hno _]|(_ & key & token & claims & ? & ? & ? & ? & ? & He')];
      [congruence|].
    destruct (dispatch_routes route_matches _ r
                (authenticate env now (incoming (auth r))).2
                (guarded_routes_are_routes pool validationResult))
      as [Hafter [[-> _]|(v & p & h & params & Hin & _ & -> & _)]]; [done|].
    intros [= <- <-]. right.
    split; [by destruct (guarded_handler_cases v p h params r Hin)|].
    exists key, token, claims. by rewrite Hafter, He'.
Qed.

(** X13. The search route is never reached. It is added after the [GET
    /:id] route; when every request the pattern [/search] takes is also
    taken by the pattern [/:id], as a path of one piece is, no request is
    handled by the search route: such a request goes to the read handler,
    with [search] as the [id]. *)
Theorem search_route_shadowed (now : Z) (r : http) :
  (∀ r, is_Some (route_matches "GET" "/search" r) →
        is_Some (route_matches "GET" "/:id" r)) →
  handled (serve env pool validationResult route_matches now r)
  ≠ Some ("GET", "/search")
  ∧ (is_Some (route_matches "GET" "/search" r) →
     ∀ verb pattern,
       handled (serve env pool validationResult route_matches now r)
       = Some (verb, pattern) →
       pattern ≠ "/search").
Proof.
  intros Hshadow.
  assert (∀ e, ∀ verb pattern,
    handled (dispatch route_matches (guarded_routes pool validationResult) r e)
    = Some (verb, pattern) → pattern ≠ "/search") as Hguarded.
  { intros e verb pattern. unfold guarded_routes. simpl.
    destruct (route_matches "POST" "/" r); simpl; [by intros [= <- <-]|].
    destruct (route_matches "POST" "/:id" r); simpl; [by intros [= <- <-]|].
    destruct (route_matches "GET" "/" r); simpl; [by intros [= <- <-]|].
    destruct (route_matches "GET" "/:id" r) eqn:Hid; simpl;
      [by intros [= <- <-]|].
    destruct (route_matches "DELETE" "/:id" r); simpl; [by intros [= <- <-]|].
    destruct (route_matches "GET" "/search" r) eqn:Hsearch; simpl; [|done].
    destruct (Hshadow r) as [? Hyes]; [by rewrite Hsearch|congruence]. }
  assert (∀ verb pattern,
    handled (serve env pool validationResult route_matches now r)
    = Some (verb, pattern) → pattern ≠ "/search") as Hall.
  { intros verb pattern.
    destruct (serve_cases now r) as [[_ ->]|[(_ & _ & ->)|(_ & _ & ->)]];
      simpl; [by intros [= <- <-]|done|apply Hguarded]. }
  split.
  - intros Hh. by apply Hall in Hh.
  - intros _. apply Hall.
Qed.

End RouteProperties.

Section SearchProperties.
Import Routes RoutesFacts.
#[local] Arguments String.append !_ _ / : simpl nomatch.
Variable pool : string → list sqlvalue → result (list row).
Variable validationResult : list chain → json → list json.

(** A digit is no white space, alone or as the first byte of a longer
    one, and no sign. *)
Lemma parseInt_digit_first c s :
  is_digit c = true → parseInt (String c s) = digits None (String c s).
Proof.
  intros Hc. unfold parseInt.
  destruct c as [[] [] [] [] [] [] [] []]; try discriminate Hc;
    by destruct s as [|c2 [|c3 s3]].
Qed.

Lemma digits_app acc d rest :
  Str.all is_digit d = true →
  match rest with String c _ => is_digit c = false | EmptyString => True end →
  digits acc (d +:+ rest) = digits acc d.
Proof.
  revert acc. induction d as [|c d IH]; intros acc Hd Hrest; simpl in *.
  - destruct rest as [|c rest]; [done|]. simpl. by rewrite Hrest.
  - apply andb_prop in Hd as [Hc Hd]. rewrite Hc. by apply IH.
Qed.

(** X14. What the search handler does with its parameters. It sends no
    statement and answers 400 "ID must be a valid number." when [id] is a
    non-empty text that does not begin, after white space and a sign, with
    a digit, whatever [name] is; and 400 "At least one query parameter
    (name or id) is required." when [id] and [name] are both missing or
    empty. In every other case it sends exactly one statement. *)
Theorem search_refuses_or_queries (r : http) :
  let id := default "" (query r !! "id") in
  let name := default "" (query r !! "name") in
  let fs := run (search pool r) in
  (Str.truthy id = true ∧ parseInt id = None →
   fs = [Reply 400 (Said {[ "error" := JStr "ID must be a valid number." ]})])
  ∧ (Str.truthy id = false ∧ Str.truthy name = false →
     fs = [Reply 400
             (Said {[ "error" :=
                        JStr "At least one query parameter (name or id) is required." ]})])
  ∧ ((Str.truthy id = true → is_Some (parseInt id))
     ∧ (Str.truthy id = true ∨ Str.truthy name = true)
     ↔ length (List.filter is_query fs) = 1%nat)
  ∧ (length (List.filter is_query fs) = 0%nat
     ∨ length (List.filter is_query fs) = 1%nat).
Proof.
  cbv zeta. rewrite search_run. cbv zeta.
  assert (∀ text values,
    length (List.filter is_query
      [Console "Query:" (ShownText text);
       Console "Values:" (ShownValues values);
       Query text values;
       match pool text values with
       | inl rows => Reply 200 (Rows rows)
       | inr error => Reply 500 (Said (error_body (message error)))
       end]) = 1%nat) as Hone
    by (intros; by destruct (pool _ _)).
  destruct (Str.truthy (default "" (query r !! "id"))) eqn:Hid;
    [destruct (parseInt _) eqn:Hparse|];
    destruct (Str.truthy (default "" (query r !! "name"))) eqn:Hname;
    rewrite ?Hone; simpl; split_and!;
    try (by intros [? ?]); try (by auto); try (by intros _).
  - split; [done|]. intros _. split; [by eauto|by auto].
  - split; [done|]. intros _. split; [by eauto|by auto].
  - split; [|done]. intros [Hp _]. by destruct Hp as [? Hp].
  - split; [|done]. intros [Hp _]. by destruct Hp as [? Hp].
  - split; [done|]. intros _. split; [done|by auto].
  - split; [|done]. by intros [_ [?|?]].
Qed.


(** X16. The search is lenient about what follows the number. An [id] made
    of decimal digits followed by anything that does not start with a
    digit is searched exactly like the digits alone: [12abc] finds
    driver 12. *)
Theorem search_id_prefix (r r' : http) (d rest : string) :
  Str.all is_digit d = true → d ≠ "" →
  match rest with String c _ => is_digit c = false | EmptyString => True end →
  query r !! "id" = Some (d +:+ rest) →
  query r' !! "id" = Some d →
  query r !! "name" = query r' !! "name" →
  run (search pool r) = run (search pool r').
Proof.
  intros Hd Hne Hrest Hid Hid' Hname.
  rewrite !search_run. cbv zeta. rewrite Hid, Hid', Hname. simpl.
  destruct d as [|c d]; [done|]. simpl in Hd. apply andb_prop in Hd as [Hc Hd].
  change (String c d +:+ rest) with (String c (d +:+ rest)). simpl.
  rewrite !parseInt_digit_first by done. simpl. rewrite Hc.
  by rewrite digits_app.
Qed.

Lemma answers_by_rows_intro text values :
  answers_by_rows
    [Query text values;
     match pool text values with
     | inl [] => Reply 404 (Said (message_body "Driver not found"))
     | inl (first :: _) => Reply 200 (FirstRow (Some first))
     | inr error => Reply 500 (Said (error_body (message error)))
     end] (pool text values).
Proof.
  unfold answers_by_rows.
  destruct (pool text values) as [[|first others]|e]; split_and!.
  all: intros; try match goal with H : _ ∈ _ |- _ => revert H end.
  all: rewrite !elem_of_cons, elem_of_nil.
  all: try (intros [Hin|[Hin|[]]]; [discriminate Hin|];
            injection Hin as <- _; by auto).
  all: split.
  all: try (intros [Hin|[Hin|[]]]; [discriminate Hin|];
            first [discriminate Hin | injection Hin as ->; by eauto]).
  all: try (by intros [[=] _]).
  all: try (by intros (? & ? & [=] & _)).
  all: try (by intros (? & [=] & _)).
  all: try (intros [_ ->]; by auto).
  all: try (intros (? & ? & [= <- <-] & ->); by auto).
  all: try (intros (? & [= <-] & ->); by auto).
Qed.

(** X17. Found, not found, failed. The read and the delete handlers, and
    the update handler once validation has passed, send one statement with
    the path parameter [id] as its last value and answer by its outcome
    alone: 404 "Driver not found" exactly when it returned no row, 200 with
    the first row exactly when it returned some, 500 with the message of
    the error exactly when it threw. *)
Theorem answers_follow_rows (params : gmap string string) (r : http) :
  answers_by_rows (run (get_driver pool params))
    (pool select_driver [JsString <$> params !! "id"])
  ∧ answers_by_rows (run (delete_driver pool params))
      (pool delete_driver_text [JsString <$> params !! "id"])
  ∧ (validationResult update_checks (body r) = [] → is_null (body r) = false →
     answers_by_rows (run (update_driver pool validationResult params r))
       (pool update_driver_text
          [member "driverName" (body r); member "fleetId" (body r);
           member "licenseID" (body r);
           member "location" (body r) ≫= member "City";
           member "location" (body r) ≫= member "Pincode";
           member "vehicleTypes" (body r); JsString <$> params !! "id"])).
Proof.
  pose proof answers_by_rows_intro as Hanswers.
  split_and!.
  - unfold get_driver. rewrite by_id_run. apply Hanswers.
  - unfold delete_driver. rewrite by_id_run. apply Hanswers.
  - intros Hvalid Hbody. rewrite update_run, Hvalid, Hbody. apply Hanswers.
Qed.

End SearchProperties.

Section GuardedQueries.
Import Routes RoutesFacts.
Context `{J : Jws}.
Variable env : gmap string string.
Variable pool : string → list sqlvalue → result (list row).
Variable validationResult : list chain → json → list json.
Variable route_matches : string → string → http → option (gmap string string).

(** X18. No token, no data. A statement reaches the storage layer for a
    request only in two ways: the request is a login and the statement is
    the select on users; or the guard has accepted the request, which then
    carries a token well signed under the configured secret and not
    expired. A request turned down by the guard causes no statement. *)
Theorem no_query_without_token (now : Z) (r : http) (text : string)
    (values : list sqlvalue) :
  Query text values
    ∈ effects (serve env pool validationResult route_matches now r) →
  (is_Some (route_matches "POST" "/login" r) ∧ text = select_user
   ∧ values = [member "username" (body r); member "password" (body r)])
  ∨ (route_matches "POST" "/login" r = None
     ∧ ∃ key token claims,
         env !! "JWT_SECRET" = Some key ∧ Str.truthy key = true
         ∧ bearer_token (auth r) = Some token
         ∧ well_signed key token claims
         ∧ (claims !! "exp" = None
            ∨ ∃ exp, claims !! "exp" = Some (JNum exp)
                     ∧ clockTimestamp now < exp)).
Proof.
  destruct (serve_cases env pool validationResult route_matches now r)
    as [[Hlogin ->]|[(_ & _ & ->)|(Hother & Hnext & ->)]].
  - simpl. rewrite login_run. intros Hin. left. split; [done|].
    destruct (validationResult _ _);
      [|rewrite elem_of_cons, elem_of_nil in Hin; by destruct Hin as [?|[]]].
    destruct (is_null (body r));
      [rewrite elem_of_cons, elem_of_nil in Hin; by destruct Hin as [?|[]]|].
    cbv zeta in Hin. rewrite !elem_of_cons, elem_of_nil in Hin.
    destruct Hin as [[= -> ->]|[Hin|[]]]; [done|].
    destruct (pool _ _) as [[|u us]|?]; [done| |done].
    by destruct (generateToken _ _ _).
  - simpl. by intros ?%elem_of_nil.
  - intros _. right. split; [done|].
    destruct (authenticate_outcome env now (incoming (auth r)))
      as [[Hno _]|(_ & key & token & claims & ? & ? & ? & ? & ? & _)];
      [congruence|].
    by exists key, token, claims.
Qed.

End GuardedQueries.

(** ** Witnesses of the properties of the routes *)

Lemma login_session_sound_witness :
  200 = 200
  ∧ example_validation Routes.login_checks (Routes.body example_login) = []
  ∧ (∃ others,
       example_pool Routes.select_user
         [Routes.member "username" (Routes.body example_login);
          Routes.member "password" (Routes.body example_login)]
       = inl (example_row :: others))
  ∧ generateToken example_env 5000 (login_identity example_row)
    = inl example_login_token
  ∧ generateToken example_env 5000 (login_identity example_row)
    = generateToken example_env 5000
        (match example_row !! "user_id" with
         | Some id => {[ "id" := id ]}
         | None => ∅
         end).
Proof.
  apply (login_session_sound example_env example_pool example_validation
           5000 example_login 200 example_row example_login_token).
  vm_compute. apply list_elem_of_further, list_elem_of_here.
Defined.

Lemma login_opens_guard_witness :
  ∃ token claims,
    example_serve 5000 example_login
    = {| Routes.after := incoming (Routes.auth example_login);
         Routes.handled := Some ("POST", "/login");
         Routes.effects :=
           [Routes.Query Routes.select_user
              [Routes.member "username" (Routes.body example_login);
               Routes.member "password" (Routes.body example_login)];
            Routes.Reply 200 (Routes.Session example_row token)] |}
    ∧ claims !! "id" = Some (JNum 42)
    ∧ (headers (Routes.auth example_read) !! "authorization"
       = Some ("Bearer " +:+ token) →
       Routes.after (example_serve 1000000 example_read)
       = {| req := {| headers := headers (Routes.auth example_read);
                      user := Some claims |};
            calls := [Verify token; Next] |}).
Proof.
  apply (login_opens_guard example_env example_pool example_validation
           example_matches "s3cret" 5000 1000000 example_login example_read
           ∅ example_row [] (JNum 42)); vm_compute; reflexivity.
Defined.

Lemma login_without_secret_witness :
  Routes.run (Routes.login (J := Ideal.jws) ∅ example_pool example_validation
                5000 example_login)
  = [Routes.Query Routes.select_user
       [Routes.member "username" (Routes.body example_login);
        Routes.member "password" (Routes.body example_login)];
     Routes.Reply 500
       (Routes.Said {[ "error" := JStr "secretOrPrivateKey must have a value" ]})].
Proof.
  apply (login_without_secret ∅ example_pool example_validation 5000
           example_login example_row []);
    [left; reflexivity | reflexivity | reflexivity | reflexivity].
Defined.

Lemma invalid_body_not_queried_witness :
  Routes.run
    (Routes.login example_env example_pool example_validation 5000
       (example_http "POST" "/login" None ∅ Routes.JsNull))
  = [Routes.Reply 400
       (Routes.ValidationErrors
          (example_validation Routes.login_checks Routes.JsNull))].
Proof.
  apply (invalid_body_not_queried example_env example_pool example_validation
           5000 ∅ (example_http "POST" "/login" None ∅ Routes.JsNull)
           Routes.login_checks).
  - apply list_elem_of_here.
  - vm_compute. discriminate.
Defined.

Lemma statements_are_fixed_witness : Routes.select_user ∈ Routes.statements.
Proof.
  apply (statements_are_fixed example_env example_pool example_validation
           example_matches 5000 example_login Routes.select_user
           [Routes.member "username" (Routes.body example_login);
            Routes.member "password" (Routes.body example_login)]).
  vm_compute. apply list_elem_of_here.
Defined.

Lemma handlers_behind_guard_witness :
  (("GET", "/:id") = ("POST", "/login")
   ∧ Routes.after (example_serve 1000000 example_read)
     = incoming (Routes.auth example_read))
  ∨ (("GET", "/:id")
       ∈ [("POST", "/"); ("POST", "/:id"); ("GET", "/");
          ("GET", "/:id"); ("DELETE", "/:id"); ("GET", "/search")]
     ∧ ∃ key token claims,
         example_env !! "JWT_SECRET" = Some key ∧ Str.truthy key = true
         ∧ bearer_token (Routes.auth example_read) = Some token
         ∧ well_signed key token claims
         ∧ (claims !! "exp" = None
            ∨ ∃ exp, claims !! "exp" = Some (JNum exp)
                     ∧ clockTimestamp 1000000 < exp)
         ∧ Routes.after (example_serve 1000000 example_read)
           = {| req := {| headers := headers (Routes.auth example_read);
                          user := Some claims |};
                calls := [Verify token; Next] |}).
Proof.
  apply (handlers_behind_guard example_env example_pool example_validation
           example_matches 1000000 example_read "GET" "/:id").
  vm_compute. reflexivity.
Defined.

(** The example matcher takes for [/:id] whatever it takes for
    [/search]. *)
Lemma example_matches_shadow (r : Routes.http) :
  is_Some (example_matches "GET" "/search" r) →
  is_Some (example_matches "GET" "/:id" r).
Proof.
  unfold example_matches.
  destruct (String.eqb (Routes.method r) "GET"); [|done]. simpl.
  destruct (String.eqb_spec (Routes.path r) "/search") as [->|];
    [by eexists|by intros [? ?]].
Qed.

Lemma search_route_shadowed_witness :
  Routes.handled (example_serve 1000000 (example_search None (Some "Bo")))
  ≠ Some ("GET", "/search")
  ∧ (is_Some (example_matches "GET" "/search" (example_search None (Some "Bo"))) →
     ∀ verb pattern,
       Routes.handled (example_serve 1000000 (example_search None (Some "Bo")))
       = Some (verb, pattern) →
       pattern ≠ "/search").
Proof.
  apply (search_route_shadowed example_env example_pool example_validation
           example_matches 1000000 (example_search None (Some "Bo"))).
  exact example_matches_shadow.
Defined.


Lemma search_id_prefix_witness :
  Routes.run (Routes.search example_pool (example_search (Some "12abc") None))
  = Routes.run (Routes.search example_pool (example_search (Some "12") None)).
Proof.
  apply (search_id_prefix example_pool
           (example_search (Some "12abc") None)
           (example_search (Some "12") None) "12" "abc");
    vm_compute; (reflexivity || discriminate).
Defined.

Lemma no_query_without_token_witness :
  (is_Some (example_matches "POST" "/login" example_read)
   ∧ Routes.select_driver = Routes.select_user
   ∧ [Some (Routes.JsString "7")]
     = [Routes.member "username" (Routes.body example_read);
        Routes.member "password" (Routes.body example_read)])
  ∨ (example_matches "POST" "/login" example_read = None
     ∧ ∃ key token claims,
         example_env !! "JWT_SECRET" = Some key ∧ Str.truthy key = true
         ∧ bearer_token (Routes.auth example_read) = Some token
         ∧ well_signed key token claims
         ∧ (claims !! "exp" = None
            ∨ ∃ exp, claims !! "exp" = Some (JNum exp)
                     ∧ clockTimestamp 1000000 < exp)).
Proof.
  apply (no_query_without_token example_env example_pool example_validation
           example_matches 1000000 example_read Routes.select_driver
           [Some (Routes.JsString "7")]).
  vm_compute. apply list_elem_of_here.
Defined.
